(** * MyHome: the quote-and-typewriter widget of [script.js]

  A shallow embedding of [fetchDailyQuote], [startTypewriterAnimation]
  and [startCursorBlink] (class [AnimationSystem] of [script.js]),
  with the properties of the widget proved over it.

  JavaScript strings are sequences of UTF-16 code units; [length],
  indexing and [substring] all count code units, so a string is a
  [list Z] of code units here. *)

From Stdlib Require Import ZArith QArith Qround Qabs Qpower List Bool Lia.
From Stdlib Require Import String Ascii DecimalString.
From Stdlib Require Import PrimFloat FloatOps SpecFloat.
Import ListNotations.
Open Scope Z_scope.

(** ** JavaScript strings *)

Module JsString.

Definition jsstring : Type := list Z.

(** An ASCII literal as a JavaScript string. *)
Definition str (s : string) : jsstring :=
  map (fun a => Z.of_N (N_of_ascii a)) (list_ascii_of_string s).

(** [s.length] *)
Definition length (s : jsstring) : Z := Z.of_nat (List.length s).

(** [s[i]]: [None] stands for [undefined]. *)
Definition charAt (s : jsstring) (i : Z) : option Z :=
  if i <? 0 then None else nth_error s (Z.to_nat i).

(** [s.substring(a, b)]: both ends are clamped to [0, s.length] and
    swapped when [a > b]. *)
Definition clamp (n len : Z) : Z := Z.min (Z.max n 0) len.

Definition substring (s : jsstring) (a b : Z) : jsstring :=
  let a' := clamp a (length s) in
  let b' := clamp b (length s) in
  let lo := Z.min a' b' in
  let hi := Z.max a' b' in
  firstn (Z.to_nat (hi - lo)) (skipn (Z.to_nat lo) s).

(** The code units matched by [\s] in a regular expression, which are
    also the ones [trim] strips: WhiteSpace and LineTerminator of
    ECMAScript. *)
Definition isWhiteSpace (c : Z) : bool :=
  (c =? 0x9) || (c =? 0xA) || (c =? 0xB) || (c =? 0xC) || (c =? 0xD)
  || (c =? 0x20) || (c =? 0xA0) || (c =? 0x1680)
  || ((0x2000 <=? c) && (c <=? 0x200A))
  || (c =? 0x2028) || (c =? 0x2029) || (c =? 0x202F) || (c =? 0x205F)
  || (c =? 0x3000) || (c =? 0xFEFF).

Fixpoint trimStart (s : jsstring) : jsstring :=
  match s with
  | [] => []
  | c :: t => if isWhiteSpace c then trimStart t else s
  end.

Definition trimEnd (s : jsstring) : jsstring := rev (trimStart (rev s)).

(** [s.trim()] *)
Definition trim (s : jsstring) : jsstring := trimEnd (trimStart s).

(** A character class [[...]] given by the list of its members. *)
Definition inClass (members : list Z) (c : Z) : bool :=
  existsb (Z.eqb c) members.

(** [s.replace(/[cls]/g, rep)]: every code unit of the class is
    replaced by [rep]. *)
Definition replaceEach (cls : Z -> bool) (rep : jsstring) (s : jsstring)
  : jsstring :=
  flat_map (fun c => if cls c then rep else [c]) s.

(** [s.replace(/cls+/g, rep)]: every maximal run of code units of the
    class is replaced by one [rep].  [inRun] tells that the previous
    code unit belonged to the run being replaced. *)
Fixpoint replaceRunsFrom (cls : Z -> bool) (rep : jsstring) (inRun : bool)
  (s : jsstring) : jsstring :=
  match s with
  | [] => []
  | c :: t =>
      if cls c
      then (if inRun then replaceRunsFrom cls rep true t
            else rep ++ replaceRunsFrom cls rep true t)
      else c :: replaceRunsFrom cls rep false t
  end.

Definition replaceRuns (cls : Z -> bool) (rep : jsstring) (s : jsstring)
  : jsstring :=
  replaceRunsFrom cls rep false s.

(** [list.includes(x)] for a list of one-unit strings and [x = s[i]]. *)
Definition includes (l : list Z) (x : option Z) : bool :=
  match x with
  | Some c => existsb (Z.eqb c) l
  | None => false
  end.

End JsString.

Import JsString.

(** ** Cleaning and truncating the quote ([fetchDailyQuote], lines 1179-1204) *)

Module Quote.

(** The chain of [replace] calls applied to [quote.trim()].  The two
    last character classes are written [[""]] and [['']] in the source:
    both members of each are the straight ASCII quote. *)
Definition sanitize (quote : jsstring) : jsstring :=
  replaceEach (inClass [0x27; 0x27]) [0x27]
    (replaceEach (inClass [0x22; 0x22]) [0x22]
       (replaceRuns isWhiteSpace [0x20]
          (replaceEach (inClass [0xD; 0xA; 0x9]) [0x20]
             (trim quote)))).

Definition maxLength : Z := 60.

(** ['.', '!', '?', '。', '！', '？'] *)
Definition cutPoints : list Z := [0x2E; 0x21; 0x3F; 0x3002; 0xFF01; 0xFF1F].

(** The [for] loop over [i], entered at [i]; the result is [cutIndex]
    at the loop's exit.  [fuel] bounds the number of iterations. *)
Fixpoint scanCut (s : jsstring) (i : Z) (fuel : nat) : Z :=
  match fuel with
  | O => -1
  | S fuel' =>
      if i <? maxLength
      then (if includes cutPoints (charAt s i) then i + 1
            else scanCut s (i + 1) fuel')
      else -1
  end.

Definition truncate (cleanQuote : jsstring) : jsstring :=
  if length cleanQuote >? maxLength
  then
    let cutIndex := scanCut cleanQuote (maxLength - 10) 10 in
    if cutIndex >? 0
    then substring cleanQuote 0 cutIndex
    else substring cleanQuote 0 (maxLength - 3) ++ str "..."
  else cleanQuote.

(** The value [fetchDailyQuote] returns for a usable body. *)
Definition displayQuote (quote : jsstring) : jsstring :=
  truncate (sanitize quote).

End Quote.

Import Quote.

(** ** The asynchronous body of [fetchDailyQuote] (lines 1145-1213)

    The function is suspended twice, at [await fetch(...)] and at
    [await response.text()].  Between suspensions its continuations run
    to completion, so the call is a state machine driven by the event
    loop: the timer task of [setTimeout] and the settlements of the two
    awaited promises.  Console output is left out. *)

Module Fetch.

Record Response : Type := {
  ok : bool;
  status : Z;
  statusText : jsstring
}.

(** A value caught by [catch (error)]. *)
Record Thrown : Type := {
  instanceofError : bool;
  message : jsstring
}.

(** Which statement raised the error the call is rejected with.  The
    [Error] built by the source carries the message only; the reason is
    kept beside it to tell the paths apart. *)
Inductive Reason : Type :=
| timeout
| http_status (code : Z)
| empty_body
| network.

Inductive Settlement : Type :=
| Fulfilled (cleanQuote : jsstring)
| Rejected (reason : Reason) (msg : jsstring).

Inductive Stage : Type :=
| AwaitFetch
| AwaitText (response : Response)
| Done (result : Settlement).

Record State : Type := {
  now : Z;
  stage : Stage;
  timeoutId : option Z;
  aborted : bool
}.

Definition settled (s : State) : bool :=
  match stage s with
  | Done _ => true
  | _ => false
  end.

Definition setNow (t : Z) (s : State) : State :=
  {| now := t; stage := stage s; timeoutId := timeoutId s;
     aborted := aborted s |}.

Definition setStage (st : Stage) (s : State) : State :=
  {| now := now s; stage := st; timeoutId := timeoutId s;
     aborted := aborted s |}.

(** [clearTimeout(timeoutId)] *)
Definition clearTimeout (s : State) : State :=
  {| now := now s; stage := stage s; timeoutId := None;
     aborted := aborted s |}.

(** [controller.abort()] *)
Definition abort (s : State) : State :=
  {| now := now s; stage := stage s; timeoutId := timeoutId s;
     aborted := true |}.

Definition timeoutMs : Z := 5000.

(** The state at the first suspension of a call made at time [t0]: the
    timer is armed and the request is in flight. *)
Definition init (t0 : Z) : State :=
  {| now := t0; stage := AwaitFetch; timeoutId := Some (t0 + timeoutMs);
     aborted := false |}.

(** ['API返回内容为空'] *)
Definition emptyMessage : jsstring :=
  [0x41; 0x50; 0x49; 0x8FD4; 0x56DE; 0x5185; 0x5BB9; 0x4E3A; 0x7A7A].

(** ['获取每日一言失败'] *)
Definition fallbackMessage : jsstring :=
  [0x83B7; 0x53D6; 0x6BCF; 0x65E5; 0x4E00; 0x8A00; 0x5931; 0x8D25].

(** [`HTTP ${response.status}: ${response.statusText}`] *)
Definition httpMessage (r : Response) : jsstring :=
  str "HTTP " ++ str (NilZero.string_of_int (Z.to_int (status r)))
    ++ str ": " ++ statusText r.

(** [new Error(m)] *)
Definition newError (m : jsstring) : Thrown :=
  {| instanceofError := true; message := m |}.

Section Platform.

(** The message of the [AbortError] a browser rejects an aborted request
    with. *)
Variable abortMessage : jsstring.

(** The [catch] block (lines 1209-1213). *)
Definition catchBlock (why : Reason) (error : Thrown) (s : State) : State :=
  let s1 := clearTimeout s in
  setStage
    (Done (Rejected why
             (if instanceofError error then message error
              else fallbackMessage)))
    s1.

(** The continuation of [await fetch(...)] (lines 1165-1171). *)
Definition afterFetch (response : Response) (s : State) : State :=
  let s1 := clearTimeout s in
  if negb (ok response)
  then catchBlock (http_status (status response))
         (newError (httpMessage response)) s1
  else setStage (AwaitText response) s1.

(** The continuation of [await response.text()] (lines 1174-1207).
    [!quote] holds of the empty string only. *)
Definition afterText (quote : jsstring) (s : State) : State :=
  if (length quote =? 0) || (length (trim quote) =? 0)
  then catchBlock empty_body (newError emptyMessage) s
  else setStage (Done (Fulfilled (truncate (sanitize quote)))) s.

(** The settlement of an awaited promise. *)
Inductive NetEvent : Type :=
| FetchFulfils (response : Response)
| FetchRejects (error : Thrown)
| TextFulfils (quote : jsstring)
| TextRejects (error : Thrown).

(** A promise settles once, and only the promise the call is suspended
    on resumes it: any other event leaves the call as it is. *)
Definition onNet (ev : NetEvent) (s : State) : State :=
  match stage s, ev with
  | AwaitFetch, FetchFulfils response => afterFetch response s
  | AwaitFetch, FetchRejects error => catchBlock network error s
  | AwaitText _, TextFulfils quote => afterText quote s
  | AwaitText _, TextRejects error => catchBlock network error s
  | _, _ => s
  end.

(** The timer task [() => { controller.abort(); ... }] and what the
    abort does to the awaited promise: it is rejected with an
    [AbortError], which resumes the call in its [catch] block. *)
Definition onTimer (s : State) : State :=
  let s1 := abort (clearTimeout s) in
  match stage s1 with
  | Done _ => s1
  | _ => catchBlock timeout (newError abortMessage) s1
  end.

(** One turn of the event loop.  A pending timer runs at its due time:
    an event stamped [t] is handled only while no timer is due before
    [t]; when both fall on the same millisecond either may run first. *)
Inductive Label : Type :=
| LTimer
| LNet (t : Z) (ev : NetEvent).

Definition step (l : Label) (s : State) : option State :=
  match l with
  | LTimer =>
      match timeoutId s with
      | Some due => Some (onTimer (setNow (Z.max (now s) due) s))
      | None => None
      end
  | LNet t ev =>
      if (now s <=? t)
         && match timeoutId s with
            | Some due => t <=? due
            | None => true
            end
      then Some (onNet ev (setNow t s))
      else None
  end.

Fixpoint run (tr : list Label) (s : State) : option State :=
  match tr with
  | [] => Some s
  | l :: tr' =>
      match step l s with
      | Some s' => run tr' s'
      | None => None
      end
  end.

End Platform.

End Fetch.

(** ** Numbers

    [Math.random() * 30 + 70] is computed on IEEE 754 binary64 values.
    A finite binary64 value is a rational, and an operation returns the
    exact result rounded to the nearest value with a 53-bit significand,
    ties to even.  The magnitudes of this program stay far below the
    overflow threshold, which is therefore not modelled. *)

Module Float64.

Definition pow2 (e : Z) : Q := Qpower 2 e.

(** [floor (log2 x)] for [0 < x]. *)
Definition floorLog2 (x : Q) : Z :=
  let e := Z.log2 (Qnum x) - Z.log2 (Zpos (Qden x)) in
  if Qle_bool (pow2 e) x then e else e - 1.

(** The exponent of the last place of the values around [x]: 53
    significant bits, gradual underflow below [2^-1022]. *)
Definition ulpExp (x : Q) : Z :=
  Z.max (floorLog2 (Qabs x) - 52) (-1074).

(** The nearest integer, the even one of two nearest. *)
Definition nearestEven (x : Q) : Z :=
  let f := Qfloor x in
  match Qcompare (x - inject_Z f) (1 # 2) with
  | Lt => f
  | Gt => f + 1
  | Eq => if Z.even f then f else f + 1
  end.

Definition round (x : Q) : Q :=
  if Qeq_bool x 0 then 0%Q
  else
    let e := ulpExp x in
    Qred (inject_Z (nearestEven (x / pow2 e)) * pow2 e).

Definition mul (x y : Q) : Q := round (x * y).
Definition add (x y : Q) : Q := round (x + y).

End Float64.

(** ** The typewriter ([startTypewriterAnimation], [startCursorBlink])

    The closures handed to [setTimeout] and [setInterval] are data here:
    a task names the closure and the environment it captured, and the
    variables the closures mutate ([currentIndex], [isVisible],
    [blinkCount]) live in the state. *)

Module Typewriter.

(** [element.style.borderRight]: ['none'] or
    ['2px solid var(--accent-color)']. *)
Inductive Border : Type :=
| BorderNone
| BorderAccent.

Record Element : Type := {
  textContent : jsstring;
  borderRight : Border;
  typing : bool
}.

Definition ElementId : Type := nat.

(** The variables captured by [typeNextChar]; [chars] is [text] split
    into its code units. *)
Record Session : Type := {
  target : ElementId;
  text : jsstring;
  currentIndex : Z
}.

(** The variables captured by [blink]. *)
Record BlinkEnv : Type := {
  blinkTarget : ElementId;
  isVisible : bool;
  blinkCount : Z
}.

Inductive Task : Type :=
| TypeNextChar (session : nat)
| FlashOff (element : ElementId)
| Blink (env : nat)
| BlinkStop (element : ElementId) (blinkInterval : nat).

(** A timer of the page; [period] is set for [setInterval]. *)
Record Timer : Type := {
  timerId : nat;
  due : Z;
  period : option Z;
  task : Task
}.

Record State : Type := {
  now : Z;
  dom : ElementId -> Element;
  timers : list Timer;
  nextTimerId : nat;
  sessions : list Session;
  blinkEnvs : list BlinkEnv;
  tweens : list ElementId;
  randoms : nat -> Q;
  randomsUsed : nat;
  uncaught : nat
}.

Definition setNow (t : Z) (s : State) : State :=
  {| now := t; dom := dom s; timers := timers s;
     nextTimerId := nextTimerId s; sessions := sessions s;
     blinkEnvs := blinkEnvs s; tweens := tweens s; randoms := randoms s;
     randomsUsed := randomsUsed s; uncaught := uncaught s |}.

Definition setDom (d : ElementId -> Element) (s : State) : State :=
  {| now := now s; dom := d; timers := timers s;
     nextTimerId := nextTimerId s; sessions := sessions s;
     blinkEnvs := blinkEnvs s; tweens := tweens s; randoms := randoms s;
     randomsUsed := randomsUsed s; uncaught := uncaught s |}.

Definition setTimers (l : list Timer) (next : nat) (s : State) : State :=
  {| now := now s; dom := dom s; timers := l;
     nextTimerId := next; sessions := sessions s;
     blinkEnvs := blinkEnvs s; tweens := tweens s; randoms := randoms s;
     randomsUsed := randomsUsed s; uncaught := uncaught s |}.

Definition setSessions (l : list Session) (s : State) : State :=
  {| now := now s; dom := dom s; timers := timers s;
     nextTimerId := nextTimerId s; sessions := l;
     blinkEnvs := blinkEnvs s; tweens := tweens s; randoms := randoms s;
     randomsUsed := randomsUsed s; uncaught := uncaught s |}.

Definition setBlinkEnvs (l : list BlinkEnv) (s : State) : State :=
  {| now := now s; dom := dom s; timers := timers s;
     nextTimerId := nextTimerId s; sessions := sessions s;
     blinkEnvs := l; tweens := tweens s; randoms := randoms s;
     randomsUsed := randomsUsed s; uncaught := uncaught s |}.

Definition setTweens (l : list ElementId) (s : State) : State :=
  {| now := now s; dom := dom s; timers := timers s;
     nextTimerId := nextTimerId s; sessions := sessions s;
     blinkEnvs := blinkEnvs s; tweens := l; randoms := randoms s;
     randomsUsed := randomsUsed s; uncaught := uncaught s |}.

(** [Math.random()]: the next value of the sequence. *)
Definition random (s : State) : Q * State :=
  (randoms s (randomsUsed s),
   {| now := now s; dom := dom s; timers := timers s;
      nextTimerId := nextTimerId s; sessions := sessions s;
      blinkEnvs := blinkEnvs s; tweens := tweens s; randoms := randoms s;
      randomsUsed := S (randomsUsed s); uncaught := uncaught s |}).

(** An exception that leaves a timer task. *)
Definition throwUncaught (s : State) : State :=
  {| now := now s; dom := dom s; timers := timers s;
     nextTimerId := nextTimerId s; sessions := sessions s;
     blinkEnvs := blinkEnvs s; tweens := tweens s; randoms := randoms s;
     randomsUsed := randomsUsed s; uncaught := S (uncaught s) |}.

Definition updElement (el : ElementId) (f : Element -> Element) (s : State)
  : State :=
  setDom (fun e => if Nat.eqb e el then f (dom s e) else dom s e) s.

Definition setTextContent (el : ElementId) (t : jsstring) : State -> State :=
  updElement el (fun e =>
    {| textContent := t; borderRight := borderRight e; typing := typing e |}).

Definition setBorderRight (el : ElementId) (b : Border) : State -> State :=
  updElement el (fun e =>
    {| textContent := textContent e; borderRight := b; typing := typing e |}).

Definition setTyping (el : ElementId) (b : bool) : State -> State :=
  updElement el (fun e =>
    {| textContent := textContent e; borderRight := borderRight e;
       typing := b |}).

(** The delay of a timer is an integer number of milliseconds: the
    fraction is dropped and a negative delay counts as zero. *)
Definition timerDelay (delay : Q) : Z := Z.max 0 (Qfloor delay).

(** [setTimeout(task, delay)] *)
Definition setTimeout (tk : Task) (delay : Q) (s : State) : State :=
  setTimers
    (timers s ++ [{| timerId := nextTimerId s;
                     due := now s + timerDelay delay;
                     period := None; task := tk |}])
    (S (nextTimerId s)) s.

(** [setInterval(task, delay)] *)
Definition setInterval (tk : Task) (delay : Q) (s : State) : State :=
  setTimers
    (timers s ++ [{| timerId := nextTimerId s;
                     due := now s + timerDelay delay;
                     period := Some (timerDelay delay); task := tk |}])
    (S (nextTimerId s)) s.

(** [clearTimeout(id)] and [clearInterval(id)] *)
Definition clearTimer (id : nat) (s : State) : State :=
  setTimers (filter (fun tm => negb (Nat.eqb (timerId tm) id)) (timers s))
    (nextTimerId s) s.

(** [gsap.killTweensOf(element)] *)
Definition killTweensOf (el : ElementId) (s : State) : State :=
  setTweens (filter (fun e => negb (Nat.eqb e el)) (tweens s)) s.

(** [char === ' '] *)
Definition isSpace (char : option Z) : bool :=
  match char with
  | Some c => c =? 0x20
  | None => false
  end.

(** [/[，。！？、；：]/.test(char)] *)
Definition isPunctuation (char : option Z) : bool :=
  match char with
  | Some c =>
      inClass [0xFF0C; 0x3002; 0xFF01; 0xFF1F; 0x3001; 0xFF1B; 0xFF1A] c
  | None => false
  end.

(** [/[a-zA-Z]/.test(char)]; [undefined] is tested as the string
    ["undefined"]. *)
Definition isAsciiLetter (char : option Z) : bool :=
  match char with
  | Some c => ((0x61 <=? c) && (c <=? 0x7A)) || ((0x41 <=? c) && (c <=? 0x5A))
  | None => true
  end.

(** The value of [delay] (lines 1242-1251) when [Math.random()], if it
    is called, returns [r]. *)
Definition delayOf (char : option Z) (r : Q) : Q :=
  if isSpace char then 50%Q
  else if isPunctuation char then 200%Q
  else if isAsciiLetter char then Float64.add (Float64.mul r 30) 70
  else Float64.add (Float64.mul r 40) 90.

Definition typingDelay (char : option Z) (s : State) : Q * State :=
  if isSpace char || isPunctuation char then (delayOf char 0, s)
  else let (r, s1) := random s in (delayOf char r, s1).

(** [startCursorBlink(element)] (lines 1279-1305). *)
Definition startCursorBlink (el : ElementId) (s : State) : State :=
  let env := List.length (blinkEnvs s) in
  let s1 :=
    setBlinkEnvs
      (blinkEnvs s
       ++ [{| blinkTarget := el; isVisible := true; blinkCount := 0 |}]) s in
  let blinkInterval := nextTimerId s1 in
  let s2 := setInterval (Blink env) 500 s1 in
  setTimeout (BlinkStop el blinkInterval) 30000 s2.

(** The closure [blink] (lines 1283-1295). *)
Definition blink (env : nat) (s : State) : State :=
  match nth_error (blinkEnvs s) env with
  | None => s
  | Some b =>
      let el := blinkTarget b in
      let s1 :=
        setBorderRight el (if isVisible b then BorderAccent else BorderNone)
          s in
      let b' := {| blinkTarget := el; isVisible := negb (isVisible b);
                   blinkCount := blinkCount b + 1 |} in
      let s2 :=
        setBlinkEnvs
          (firstn env (blinkEnvs s1) ++ b' :: skipn (S env) (blinkEnvs s1))
          s1 in
      if blinkCount b' >? 120 then setBorderRight el BorderNone s2 else s2
  end.

(** The closure handed to [setTimeout(..., 30000)] (lines 1301-1304). *)
Definition blinkStop (el : ElementId) (blinkInterval : nat) (s : State)
  : State :=
  setBorderRight el BorderNone (clearTimer blinkInterval s).

(** The closure [typeNextChar] (lines 1233-1271).  [this.showNotification]
    is not a method of [AnimationSystem]: the call on line 1269 throws,
    after [startCursorBlink] has run. *)
Definition typeNextChar (sid : nat) (s : State) : State :=
  match nth_error (sessions s) sid with
  | None => s
  | Some ses =>
      let el := target ses in
      if currentIndex ses <? length (text ses)
      then
        let char := charAt (text ses) (currentIndex ses) in
        let s1 :=
          setTextContent el (substring (text ses) 0 (currentIndex ses + 1))
            s in
        let ses' := {| target := el; text := text ses;
                       currentIndex := currentIndex ses + 1 |} in
        let s2 :=
          setSessions
            (firstn sid (sessions s1) ++ ses' :: skipn (S sid) (sessions s1))
            s1 in
        let (delay, s3) := typingDelay char s2 in
        let s4 := setTimeout (TypeNextChar sid) delay s3 in
        let (r, s5) := random s4 in
        if Qlt_le_dec (Float64.round (8 # 10)) r
        then setTimeout (FlashOff el) 80 (setBorderRight el BorderAccent s5)
        else s5
      else
        throwUncaught (startCursorBlink el (setTyping el false s))
  end.

(** [startTypewriterAnimation(element, text)] (lines 1217-1276). *)
Definition startTypewriterAnimation (el : ElementId) (txt : jsstring)
  (s : State) : State :=
  let s1 := killTweensOf el s in
  let s2 :=
    updElement el
      (fun _ => {| textContent := []; borderRight := BorderNone;
                   typing := true |}) s1 in
  let sid := List.length (sessions s2) in
  let s3 :=
    setSessions
      (sessions s2 ++ [{| target := el; text := txt; currentIndex := 0 |}])
      s2 in
  typeNextChar sid s3.

Definition runTask (tk : Task) (s : State) : State :=
  match tk with
  | TypeNextChar sid => typeNextChar sid s
  | FlashOff el => setBorderRight el BorderNone s
  | Blink env => blink env s
  | BlinkStop el blinkInterval => blinkStop el blinkInterval s
  end.

(** The event loop.  A turn either runs a pending timer that no other
    pending timer is due before, at its due time, or is a call of
    [startTypewriterAnimation] from outside at a time no pending timer
    is due before.  A timer of [setInterval] is armed again one period
    later. *)
Inductive Label : Type :=
| LFire (id : nat)
| LRender (t : Z) (el : ElementId) (txt : jsstring).

Definition isEarliest (d : Z) (s : State) : bool :=
  forallb (fun o => d <=? due o) (timers s).

Definition rearm (tm : Timer) (s : State) : State :=
  match period tm with
  | None => clearTimer (timerId tm) s
  | Some p =>
      setTimers
        (map (fun o =>
                if Nat.eqb (timerId o) (timerId tm)
                then {| timerId := timerId o; due := due o + p;
                        period := period o; task := task o |}
                else o)
           (timers s))
        (nextTimerId s) s
  end.

Definition step (l : Label) (s : State) : option State :=
  match l with
  | LFire id =>
      match find (fun tm => Nat.eqb (timerId tm) id) (timers s) with
      | None => None
      | Some tm =>
          if isEarliest (due tm) s
          then Some (runTask (task tm)
                       (rearm tm (setNow (Z.max (now s) (due tm)) s)))
          else None
      end
  | LRender t el txt =>
      if (now s <=? t) && isEarliest t s
      then Some (startTypewriterAnimation el txt (setNow t s))
      else None
  end.

Fixpoint run (tr : list Label) (s : State) : option State :=
  match tr with
  | [] => Some s
  | l :: tr' =>
      match step l s with
      | Some s' => run tr' s'
      | None => None
      end
  end.

(** A page on which nothing has been scheduled yet. *)
Definition blankElement : Element :=
  {| textContent := []; borderRight := BorderNone; typing := false |}.

Definition initial (rnd : nat -> Q) : State :=
  {| now := 0; dom := fun _ => blankElement; timers := [];
     nextTimerId := O; sessions := []; blinkEnvs := []; tweens := [];
     randoms := rnd; randomsUsed := O; uncaught := O |}.

(** *** The blink phase, as the proofs follow it

    [startCursorBlink] is called at time [t0] on [el]; its closure
    environment is number [env] and its interval timer has identifier
    [id]. *)

(** The two timers of the call after [k] runs of [blink]. *)
Definition blinkTimers (el : ElementId) (env id : nat) (t0 k : Z)
  : list Timer :=
  [{| timerId := id; due := t0 + 500 * (k + 1); period := Some 500;
      task := Blink env |};
   {| timerId := S id; due := t0 + 30000; period := None;
      task := BlinkStop el id |}].

(** A timer left by a reveal tick that flashed the cursor: it is older
    than the blink timers and due before the first run of [blink]. *)
Definition flashTimer (id : nat) (t0 : Z) (tm : Timer) : Prop :=
  (exists e, task tm = FlashOff e)
  /\ period tm = None
  /\ (timerId tm < id)%nat
  /\ due tm < t0 + 500.

(** The cursor blinks: [blink] has run [k] times, at 500 ms from each
    other, and the border shows the last toggle. *)
Definition blinking (el : ElementId) (env id : nat) (t0 k : Z) (s : State)
  : Prop :=
  0 <= k <= 60
  /\ (exists flashes,
         timers s = flashes ++ blinkTimers el env id t0 k
         /\ Forall (flashTimer id t0) flashes
         /\ (0 < k -> flashes = []))
  /\ nth_error (blinkEnvs s) env
     = Some {| blinkTarget := el; isVisible := Z.even k; blinkCount := k |}
  /\ (if k =? 0 then now s < t0 + 500 else now s = t0 + 500 * k)
  /\ (0 < k ->
      borderRight (dom s el) = if Z.odd k then BorderAccent else BorderNone).

(** The blinking is over: no timer is left and the cursor is off. *)
Definition blinkStopped (el : ElementId) (env : nat) (t0 k : Z) (s : State)
  : Prop :=
  59 <= k <= 60
  /\ timers s = []
  /\ nth_error (blinkEnvs s) env
     = Some {| blinkTarget := el; isVisible := Z.even k; blinkCount := k |}
  /\ now s = t0 + 30000
  /\ borderRight (dom s el) = BorderNone.

(** A turn of the event loop that runs a timer. *)
Definition isFire (l : Label) : Prop := exists id, l = LFire id.

(** *** One blink loop among the other timers of the page

    The loop is the one [startCursorBlink] starts at time [t0] on [el],
    with closure environment [env] and interval timer [id]; its stop timer
    is [S id]. *)

(** The interval timer after [k] runs of [blink], and the stop timer. *)
Definition intervalTimer (env id : nat) (t0 k : Z) : Timer :=
  {| timerId := id; due := t0 + 500 * (k + 1); period := Some 500;
     task := Blink env |}.

Definition stopTimer (el : ElementId) (id : nat) (t0 : Z) : Timer :=
  {| timerId := S id; due := t0 + 30000; period := None;
     task := BlinkStop el id |}.

(** A timer that is none of the loop's: it has another identifier, does
    not run the [blink] of the loop and clears no timer of the loop. *)
Definition foreignTimer (env id : nat) (tm : Timer) : Prop :=
  timerId tm <> id
  /\ timerId tm <> S id
  /\ task tm <> Blink env
  /\ (forall el i, task tm = BlinkStop el i -> i <> id /\ i <> S id).

(** The loop runs: [blink] has run [k] times, the last time at
    [t0 + 500 * k]; both timers of the loop are pending, whatever else is;
    the identifiers of the loop are not free any more. *)
Definition loopRunning (el : ElementId) (env id : nat) (t0 k : Z)
  (s : State) : Prop :=
  0 <= k <= 60
  /\ nth_error (blinkEnvs s) env
     = Some {| blinkTarget := el; isVisible := Z.even k; blinkCount := k |}
  /\ (S id < nextTimerId s)%nat
  /\ Forall (fun tm => tm = intervalTimer env id t0 k
                       \/ tm = stopTimer el id t0
                       \/ foreignTimer env id tm) (timers s)
  /\ In (intervalTimer env id t0 k) (timers s)
  /\ In (stopTimer el id t0) (timers s)
  /\ t0 + 500 * k <= now s <= t0 + 500 * (k + 1)
  /\ now s <= t0 + 30000.

(** The loop is over: neither of its timers is pending nor can be again,
    [blink] has run [k] times and will not run again, and 30000 ms have
    passed since the loop was started. *)
Definition loopStopped (el : ElementId) (env id : nat) (t0 k : Z)
  (s : State) : Prop :=
  59 <= k <= 60
  /\ nth_error (blinkEnvs s) env
     = Some {| blinkTarget := el; isVisible := Z.even k; blinkCount := k |}
  /\ (S id < nextTimerId s)%nat
  /\ Forall (foreignTimer env id) (timers s)
  /\ t0 + 30000 <= now s.

(** What every state of the page satisfies: the pending timers have
    different identifiers, all handed out already, and a timer of a blink
    loop refers to a closure environment and to an interval timer that
    exist. *)
Definition timerOk (s : State) (tm : Timer) : Prop :=
  (timerId tm < nextTimerId s)%nat
  /\ (forall e, task tm = Blink e -> (e < List.length (blinkEnvs s))%nat)
  /\ (forall el i, task tm = BlinkStop el i -> (i < nextTimerId s)%nat).

Definition wellFormed (s : State) : Prop :=
  NoDup (map timerId (timers s)) /\ Forall (timerOk s) (timers s).

(** [s'] is [s] with timers and closure environments added, and the
    clock as it was. *)
Definition grows (s s' : State) : Prop :=
  now s' = now s
  /\ (nextTimerId s <= nextTimerId s')%nat
  /\ exists added envs,
       timers s' = timers s ++ added
       /\ blinkEnvs s' = blinkEnvs s ++ envs
       /\ NoDup (map timerId added)
       /\ Forall (fun tm =>
                    (nextTimerId s <= timerId tm < nextTimerId s')%nat
                    /\ (forall e, task tm = Blink e ->
                          (List.length (blinkEnvs s) <= e
                           < List.length (blinkEnvs s'))%nat)
                    /\ (forall el i, task tm = BlinkStop el i ->
                          (nextTimerId s <= i < nextTimerId s')%nat))
            added.

(** *** The sessions, as the proofs follow them *)


(** The ticks of the sessions: a tick is a one-shot timer of a session
    that exists; no session has two ticks pending; every session but
    [skip] has a tick pending or has revealed its whole text; [skip] has no
    tick pending; and the timer a stop timer will clear is a blink
    timer. *)
Definition ticksOk (skip : option nat) (s : State) : Prop :=
  (forall tm sid,
      In tm (timers s) -> task tm = TypeNextChar sid ->
      period tm = None /\ (sid < List.length (sessions s))%nat)
  /\ (forall tm tm' sid,
         In tm (timers s) -> In tm' (timers s) ->
         task tm = TypeNextChar sid -> task tm' = TypeNextChar sid ->
         tm = tm')
  /\ (forall sid ses,
         nth_error (sessions s) sid = Some ses ->
         0 <= currentIndex ses <= length (text ses))
  /\ (forall sid ses,
         nth_error (sessions s) sid = Some ses -> skip <> Some sid ->
         (exists tm, In tm (timers s) /\ task tm = TypeNextChar sid)
         \/ currentIndex ses = length (text ses))
  /\ (forall tm el i tm',
         In tm (timers s) -> task tm = BlinkStop el i ->
         In tm' (timers s) -> timerId tm' = i ->
         exists e, task tm' = Blink e)
  /\ (forall sid tm,
         skip = Some sid -> In tm (timers s) -> task tm <> TypeNextChar sid).

End Typewriter.

(** ** Inputs of the worked examples *)

Module Scenario.

(** The message of the [AbortError] of a browser. *)
Definition abortMessage : jsstring := str "signal is aborted without reason".

Definition response200 : Fetch.Response :=
  {| Fetch.ok := true; Fetch.status := 200; Fetch.statusText := str "OK" |}.

Definition response503 : Fetch.Response :=
  {| Fetch.ok := false; Fetch.status := 503;
     Fetch.statusText := str "Service Unavailable" |}.

Definition failedToFetch : Fetch.Thrown :=
  {| Fetch.instanceofError := true; Fetch.message := str "Failed to fetch" |}.

(** [1 - 2^-52], the largest value of a generator that draws 52 random
    bits, written [0.9999999999999998] in JavaScript. *)
Definition largestRandom : Q := 4503599627370495 # 4503599627370496.

(** The rational a finite binary64 value of the kernel stands for. *)
Definition ofFloat (f : PrimFloat.float) : option Q :=
  match Prim2SF f with
  | S754_zero _ => Some 0%Q
  | S754_finite sign m e =>
      Some (Qred (inject_Z (if sign then Zneg m else Zpos m)
                  * Float64.pow2 e))
  | _ => None
  end.

End Scenario.

(** ** Properties of strings *)

Section StringFacts.

Lemma length_nonneg (s : jsstring) : 0 <= length s.
Proof. unfold length. lia. Qed.

Lemma length_app (s t : jsstring) : length (s ++ t) = length s + length t.
Proof. unfold length. rewrite List.length_app. lia. Qed.

Lemma substring_prefix (s : jsstring) (n : Z) :
  0 <= n <= length s -> substring s 0 n = firstn (Z.to_nat n) s.
Proof.
  intros H. unfold substring, clamp, length in *. cbn [skipn].
  replace (Z.min (Z.max 0 0) (Z.of_nat (List.length s))) with 0 by lia.
  replace (Z.min (Z.max n 0) (Z.of_nat (List.length s))) with n by lia.
  replace (Z.max 0 n - Z.min 0 n) with n by lia.
  replace (Z.to_nat (Z.min 0 n)) with O by lia.
  reflexivity.
Qed.

Lemma length_substring_prefix (s : jsstring) (n : Z) :
  0 <= n <= length s -> length (substring s 0 n) = n.
Proof.
  intros H. rewrite substring_prefix by assumption.
  unfold length in *. rewrite List.length_firstn. lia.
Qed.

Lemma scanCut_found (s : jsstring) (k : Z) :
  forall (fuel : nat) (i : Z),
    i <= k < i + Z.of_nat fuel -> k < maxLength ->
    includes cutPoints (charAt s k) = true ->
    (forall j, i <= j < k -> includes cutPoints (charAt s j) = false) ->
    scanCut s i fuel = k + 1.
Proof.
  induction fuel as [|fuel IH]; intros i Hk Hmax Hin Hbefore.
  - lia.
  - cbn [scanCut].
    destruct (Z.ltb_spec i maxLength) as [_|Hge]; [|lia].
    destruct (Z.eq_dec i k) as [->|Hne].
    + now rewrite Hin.
    + rewrite Hbefore by lia. apply IH; try assumption; try lia.
      intros j Hj. apply Hbefore. lia.
Qed.

Lemma scanCut_none (s : jsstring) :
  forall (fuel : nat) (i : Z),
    (forall j, i <= j < maxLength -> includes cutPoints (charAt s j) = false) ->
    scanCut s i fuel = -1.
Proof.
  induction fuel as [|fuel IH]; intros i Hnone; cbn [scanCut].
  - reflexivity.
  - destruct (Z.ltb_spec i maxLength) as [Hlt|_]; [|reflexivity].
    rewrite Hnone by lia. apply IH. intros j Hj. apply Hnone. lia.
Qed.

(** The loop leaves [cutIndex] at [-1] or just behind a position it
    visited. *)
Lemma scanCut_range (s : jsstring) :
  forall (fuel : nat) (i : Z),
    0 <= i ->
    scanCut s i fuel = -1 \/ i < scanCut s i fuel <= maxLength.
Proof.
  induction fuel as [|fuel IH]; intros i Hi; cbn [scanCut].
  - now left.
  - destruct (Z.ltb_spec i maxLength) as [Hlt|_]; [|now left].
    destruct (includes cutPoints (charAt s i)).
    + right. lia.
    + destruct (IH (i + 1)) as [->|H]; [lia|now left|right; lia].
Qed.

Lemma truncate_length_le (s : jsstring) : length (truncate s) <= maxLength.
Proof.
  unfold truncate.
  destruct (Z.gtb_spec (length s) maxLength) as [Hlong|Hshort]; [|exact Hshort].
  cbv zeta.
  destruct (scanCut_range s 10 (maxLength - 10)) as [->|Hcut].
  - unfold maxLength; lia.
  - cbn [Z.gtb Z.compare]. rewrite length_app, length_substring_prefix.
    + unfold maxLength. cbn. lia.
    + unfold maxLength in *. lia.
  - unfold maxLength in *.
    destruct (Z.gtb_spec (scanCut s (60 - 10) 10) 0) as [_|Hle]; [|lia].
    rewrite length_substring_prefix; lia.
Qed.

End StringFacts.

(** ** The display budget *)

(** C1.  Whatever body the network returns, the cleaned and truncated
    quote has at most 60 code units. *)
Theorem displayQuote_length_le_60 (quote : jsstring) :
  length (displayQuote quote) <= 60.
Proof.
  unfold displayQuote. apply truncate_length_le.
Qed.

(** C2.  On a string of more than 60 code units the truncation looks at
    positions 50 to 59 for the first of the six marks of [cutPoints]: when
    the first one is at position [i], the result is the prefix of [i + 1]
    code units, which ends with that mark; when there is none, the result
    is the first 57 code units followed by three dots, 60 code units in
    all. *)
Theorem truncate_long (s : jsstring) :
  length s > 60 ->
  (forall i,
      50 <= i < 60 ->
      includes cutPoints (charAt s i) = true ->
      (forall j, 50 <= j < i -> includes cutPoints (charAt s j) = false) ->
      truncate s = firstn (Z.to_nat (i + 1)) s
      /\ length (truncate s) = i + 1
      /\ charAt (truncate s) i = charAt s i)
  /\ ((forall j, 50 <= j < 60 -> includes cutPoints (charAt s j) = false) ->
      truncate s = firstn 57 s ++ str "..."
      /\ length (truncate s) = 60).
Proof.
  intros Hlong.
  assert (Hgt : (length s >? maxLength) = true).
  { apply Z.gtb_lt. unfold maxLength. lia. }
  split.
  - intros i Hi Hmark Hfirst.
    assert (Hcut : scanCut s (maxLength - 10) 10 = i + 1).
    { apply scanCut_found; unfold maxLength; try assumption; cbn; lia. }
    assert (Htr : truncate s = firstn (Z.to_nat (i + 1)) s).
    { unfold truncate. rewrite Hgt. cbv zeta. rewrite Hcut.
      destruct (Z.gtb_spec (i + 1) 0) as [_|Hle]; [|lia].
      apply substring_prefix. lia. }
    rewrite Htr. repeat split.
    + unfold length in *. rewrite List.length_firstn. lia.
    + unfold charAt. destruct (Z.ltb_spec i 0) as [Hneg|_]; [lia|].
      rewrite nth_error_firstn.
      destruct (Nat.ltb_spec (Z.to_nat i) (Z.to_nat (i + 1))); [reflexivity|lia].
  - intros Hnone.
    assert (Hcut : scanCut s (maxLength - 10) 10 = -1).
    { apply scanCut_none. intros j Hj. apply Hnone. unfold maxLength in Hj. lia. }
    assert (Htr : truncate s = firstn 57 s ++ str "...").
    { unfold truncate. rewrite Hgt. cbv zeta. rewrite Hcut. cbn [Z.gtb Z.compare].
      rewrite substring_prefix by (unfold maxLength; lia). reflexivity. }
    rewrite Htr. split; [reflexivity|].
    rewrite length_app. unfold length in *. rewrite List.length_firstn.
    cbn [str list_ascii_of_string map List.length]. lia.
Qed.

(** A string of 64 code units with a full stop at position 52: the cut
    keeps 53 of them. *)
Lemma truncate_long_witness :
  let s :=
    str "The quick brown fox jumps over the lazy dog and runs.Then onward" in
  length s > 60
  /\ truncate s = str "The quick brown fox jumps over the lazy dog and runs.".
Proof.
  intros s.
  assert (Hlong : length s > 60) by (vm_compute; reflexivity).
  split; [exact Hlong|].
  destruct (truncate_long s Hlong) as [Hfound _].
  destruct (Hfound 52) as [Heq _].
  - lia.
  - reflexivity.
  - intros j Hj. assert (Hcases : j = 50 \/ j = 51) by lia.
    destruct Hcases as [-> | ->]; reflexivity.
  - rewrite Heq. reflexivity.
Defined.

(** ** Sanitization *)

Section Sanitize.

Lemma replaceEach_single (cls : Z -> bool) (r : Z) (s : jsstring) :
  replaceEach cls [r] s = map (fun c => if cls c then r else c) s.
Proof.
  unfold replaceEach. induction s as [|c t IH]; cbn [flat_map map].
  - reflexivity.
  - rewrite IH. now destruct (cls c).
Qed.

(** A class whose members all are the replacement: the [replace] changes
    nothing. *)
Lemma replaceEach_same (x : Z) (s : jsstring) :
  replaceEach (inClass [x; x]) [x] s = s.
Proof.
  rewrite replaceEach_single. rewrite <- (map_id s) at 2.
  apply map_ext. intros c. unfold inClass. cbn [existsb].
  destruct (Z.eqb_spec c x) as [->|_]; reflexivity.
Qed.

Lemma sanitize_unfold (quote : jsstring) :
  sanitize quote
  = replaceRuns isWhiteSpace [0x20]
      (map (fun c => if inClass [0xD; 0xA; 0x9] c then 0x20 else c)
         (trim quote)).
Proof.
  unfold sanitize. now rewrite !replaceEach_same, replaceEach_single.
Qed.

Lemma lineBreak_isWhiteSpace (c : Z) :
  inClass [0xD; 0xA; 0x9] c = true -> isWhiteSpace c = true /\ c <> 0x20.
Proof.
  unfold inClass. cbn [existsb]. rewrite !orb_true_iff, !Z.eqb_eq.
  intros [->|[->|[->|H]]]; [split; [reflexivity|lia] ..|discriminate].
Qed.

(** [trimStart] leaves a string alone exactly when the string does not
    start with white space. *)
Lemma trimStart_length (s : jsstring) :
  (List.length (trimStart s) <= List.length s)%nat.
Proof.
  induction s as [|c t IH]; cbn [trimStart]; [lia|].
  destruct (isWhiteSpace c); cbn [List.length]; lia.
Qed.

Lemma trimStart_fixed_iff (s : jsstring) :
  trimStart s = s <->
  match s with
  | [] => True
  | c :: _ => isWhiteSpace c = false
  end.
Proof.
  destruct s as [|c t]; cbn [trimStart]; [tauto|].
  destruct (isWhiteSpace c) eqn:Hc; split; try congruence.
  intros H. pose proof (trimStart_length t) as Hlen. rewrite H in Hlen.
  cbn [List.length] in Hlen. lia.
Qed.

Lemma trimStart_idempotent (s : jsstring) :
  trimStart (trimStart s) = trimStart s.
Proof.
  induction s as [|c t IH]; cbn [trimStart]; [reflexivity|].
  destruct (isWhiteSpace c) eqn:Hc; [exact IH|].
  cbn [trimStart]. now rewrite Hc.
Qed.

Lemma trimStart_suffix (s : jsstring) :
  exists p, s = p ++ trimStart s.
Proof.
  induction s as [|c t [p IH]]; cbn [trimStart].
  - now exists [].
  - destruct (isWhiteSpace c).
    + exists (c :: p). cbn [app]. now rewrite <- IH.
    + now exists [].
Qed.

(** What [trim] returns starts and ends with no white space. *)
Lemma trim_ends (s : jsstring) :
  trimStart (trim s) = trim s /\ trimStart (rev (trim s)) = rev (trim s).
Proof.
  unfold trim, trimEnd. split.
  - set (t := trimStart s).
    assert (Ht : trimStart t = t) by apply trimStart_idempotent.
    destruct (trimStart_suffix (rev t)) as [p Hp].
    apply (f_equal (@rev Z)) in Hp. rewrite rev_involutive, rev_app_distr in Hp.
    apply trimStart_fixed_iff. apply trimStart_fixed_iff in Ht.
    destruct (rev (trimStart (rev t))) as [|a w]; [exact I|].
    rewrite Hp in Ht. exact Ht.
  - rewrite rev_involutive. apply trimStart_idempotent.
Qed.

Lemma replaceRunsFrom_snoc (c : Z) (w : jsstring) :
  isWhiteSpace c = false ->
  forall b,
    replaceRunsFrom isWhiteSpace [0x20] b (w ++ [c])
    = replaceRunsFrom isWhiteSpace [0x20] b w ++ [c].
Proof.
  intros Hc. induction w as [|d t IH]; intros b; cbn [app replaceRunsFrom].
  - now rewrite Hc.
  - destruct (isWhiteSpace d); [destruct b|]; rewrite IH; reflexivity.
Qed.

(** Mapping line breaks and tabs to spaces, then collapsing the runs,
    keeps both ends free of white space. *)
Lemma collapse_ends (s : jsstring) :
  let u := replaceRuns isWhiteSpace [0x20]
             (map (fun c => if inClass [0xD; 0xA; 0x9] c then 0x20 else c) s) in
  trimStart s = s -> trimStart (rev s) = rev s ->
  trimStart u = u /\ trimStart (rev u) = rev u.
Proof.
  intros u Hhead Hlast. subst u. unfold replaceRuns. split.
  - apply trimStart_fixed_iff. apply trimStart_fixed_iff in Hhead.
    destruct s as [|c t]; [exact I|]. cbn [map replaceRunsFrom].
    destruct (inClass [0xD; 0xA; 0x9] c) eqn:Hcls.
    + apply lineBreak_isWhiteSpace in Hcls. destruct Hcls; congruence.
    + rewrite Hhead. exact Hhead.
  - apply trimStart_fixed_iff. apply trimStart_fixed_iff in Hlast.
    destruct (rev s) as [|c w] eqn:Hrev.
    + apply (f_equal (@rev Z)) in Hrev. rewrite rev_involutive in Hrev.
      subst s. exact I.
    + apply (f_equal (@rev Z)) in Hrev. rewrite rev_involutive in Hrev.
      cbn [rev] in Hrev. subst s. rewrite map_app. cbn [map].
      destruct (inClass [0xD; 0xA; 0x9] c) eqn:Hcls.
      * apply lineBreak_isWhiteSpace in Hcls. destruct Hcls; congruence.
      * rewrite replaceRunsFrom_snoc by assumption.
        rewrite rev_app_distr. cbn [rev app]. exact Hlast.
Qed.

(** After the runs are collapsed the only white space left is the plain
    space. *)
Lemma replaceRunsFrom_spaces (s : jsstring) :
  forall b,
    Forall (fun c => isWhiteSpace c = true -> c = 0x20)
      (replaceRunsFrom isWhiteSpace [0x20] b s).
Proof.
  induction s as [|c t IH]; intros b; cbn [replaceRunsFrom].
  - constructor.
  - destruct (isWhiteSpace c) eqn:Hc.
    + destruct b; [apply IH|]. cbn [app]. constructor; [reflexivity|apply IH].
    + constructor; [congruence|apply IH].
Qed.

Lemma replaceRunsFrom_idempotent (s : jsstring) :
  forall b,
    replaceRunsFrom isWhiteSpace [0x20] b
      (replaceRunsFrom isWhiteSpace [0x20] b s)
    = replaceRunsFrom isWhiteSpace [0x20] b s.
Proof.
  induction s as [|c t IH]; intros b; cbn [replaceRunsFrom].
  - reflexivity.
  - destruct (isWhiteSpace c) eqn:Hc.
    + destruct b; [apply IH|]. cbn [app replaceRunsFrom].
      change (isWhiteSpace 0x20) with true. cbn [app]. now rewrite IH.
    + cbn [replaceRunsFrom]. now rewrite Hc, IH.
Qed.

Lemma sanitize_fixed (u : jsstring) :
  trimStart u = u -> trimStart (rev u) = rev u ->
  Forall (fun c => isWhiteSpace c = true -> c = 0x20) u ->
  replaceRuns isWhiteSpace [0x20] u = u ->
  sanitize u = u.
Proof.
  intros Hhead Hlast Hsp Hruns. rewrite sanitize_unfold.
  assert (Htrim : trim u = u).
  { unfold trim, trimEnd. rewrite Hhead, Hlast. apply rev_involutive. }
  rewrite Htrim.
  assert (Hmap : map (fun c => if inClass [0xD; 0xA; 0x9] c then 0x20 else c) u
                 = u).
  { rewrite <- (map_id u) at 2. apply map_ext_in. intros c Hin.
    destruct (inClass [0xD; 0xA; 0x9] c) eqn:Hcls; [|reflexivity].
    apply lineBreak_isWhiteSpace in Hcls. destruct Hcls as [Hws Hne].
    rewrite Forall_forall in Hsp. specialize (Hsp c Hin Hws). contradiction. }
  now rewrite Hmap.
Qed.

End Sanitize.

(** C3.  The two [replace] calls meant to unify the quotation marks have
    the straight quote as the only member of their character class, so a
    curly quote passes through the cleaning unchanged. *)
Theorem sanitize_keeps_curly_quotes :
  sanitize ([0x201C] ++ str "Hi" ++ [0x201D] ++ str " " ++ [0x2018] ++ str "x"
              ++ [0x2019])
  = [0x201C] ++ str "Hi" ++ [0x201D] ++ str " " ++ [0x2018] ++ str "x"
      ++ [0x2019].
Proof. vm_compute. reflexivity. Qed.

(** The rest of the cleaning on the scenario of the specification:
    ["Hello\n\nWorld"] becomes ["Hello World"]. *)
Example sanitize_hello_world :
  sanitize (str "Hello" ++ [0xA; 0xA] ++ str "World") = str "Hello World".
Proof. vm_compute. reflexivity. Qed.

(** C4.  Cleaning a cleaned string changes nothing. *)
Theorem sanitize_idempotent (quote : jsstring) :
  sanitize (sanitize quote) = sanitize quote.
Proof.
  destruct (trim_ends quote) as [Hhead Hlast].
  destruct (collapse_ends (trim quote) Hhead Hlast) as [Hhead' Hlast'].
  apply sanitize_fixed; rewrite sanitize_unfold.
  - exact Hhead'.
  - exact Hlast'.
  - apply replaceRunsFrom_spaces.
  - unfold replaceRuns. apply replaceRunsFrom_idempotent.
Qed.

(** ** The fetch *)

Section FetchFacts.

Import Fetch.

Variable abortMessage : jsstring.

Local Abbreviation step := (Fetch.step abortMessage).
Local Abbreviation run := (Fetch.run abortMessage).
Local Abbreviation onNet := (Fetch.onNet).
Local Abbreviation onTimer := (Fetch.onTimer abortMessage).

(** The two kinds of turn. *)
Lemma step_inv (l : Label) (s s' : State) :
  step l s = Some s' ->
  (l = LTimer
   /\ exists d, timeoutId s = Some d
                /\ s' = onTimer (setNow (Z.max (now s) d) s))
  \/ (exists t ev,
        l = LNet t ev /\ now s <= t
        /\ (forall d, timeoutId s = Some d -> t <= d)
        /\ s' = onNet ev (setNow t s)).
Proof.
  destruct l as [|t ev]; cbn [Fetch.step]; intros Hstep.
  - left. split; [reflexivity|].
    destruct (timeoutId s) as [d|]; [|discriminate].
    injection Hstep as <-. now exists d.
  - right. exists t, ev.
    destruct (Z.leb_spec (now s) t) as [Hnow|_]; [|discriminate].
    cbn [andb] in Hstep.
    destruct (timeoutId s) as [d|].
    + destruct (Z.leb_spec t d) as [Hd|_]; [|discriminate].
      injection Hstep as <-. repeat split; [exact Hnow|].
      intros d' Hd'. injection Hd' as <-. exact Hd.
    + injection Hstep as <-. repeat split; [exact Hnow|discriminate].
Qed.

Lemma run_app (tr1 tr2 : list Label) (s : State) :
  run (tr1 ++ tr2) s
  = match run tr1 s with
    | Some s' => run tr2 s'
    | None => None
    end.
Proof.
  revert s. induction tr1 as [|l tr1 IH]; intros s; cbn [app Fetch.run].
  - reflexivity.
  - destruct (step l s); [apply IH|reflexivity].
Qed.

Lemma catchBlock_spec (why : Reason) (e : Thrown) (s : State) :
  timeoutId (catchBlock why e s) = None
  /\ aborted (catchBlock why e s) = aborted s
  /\ stage (catchBlock why e s)
     = Done (Rejected why (if instanceofError e then message e
                           else fallbackMessage)).
Proof. repeat split. Qed.

Lemma onTimer_timer (s : State) : timeoutId (onTimer s) = None.
Proof. unfold Fetch.onTimer. cbn. destruct (stage s); reflexivity. Qed.

Lemma onNet_timer (ev : NetEvent) (s : State) :
  (stage s <> AwaitFetch -> timeoutId s = None) ->
  stage (onNet ev s) <> AwaitFetch -> timeoutId (onNet ev s) = None.
Proof.
  intros Hinv. unfold Fetch.onNet.
  destruct (stage s) eqn:Hst, ev; try (intros _; reflexivity);
    try (intros H; apply Hinv; congruence).
  - unfold afterFetch. destruct (negb (ok response)); reflexivity.
  - unfold afterText.
    destruct ((length quote =? 0) || (length (trim quote) =? 0));
      [reflexivity|]. intros _. cbn. apply Hinv. congruence.
Qed.

Lemma step_timer_cleared (l : Label) (s s' : State) :
  (stage s <> AwaitFetch -> timeoutId s = None) ->
  step l s = Some s' ->
  stage s' <> AwaitFetch -> timeoutId s' = None.
Proof.
  intros Hinv Hstep.
  destruct (step_inv l s s' Hstep)
    as [(_ & d & _ & ->)|(t & ev & _ & _ & _ & ->)].
  - intros _. apply onTimer_timer.
  - apply onNet_timer. exact Hinv.
Qed.

Lemma run_timer_cleared (tr : list Label) :
  forall s s',
    (stage s <> AwaitFetch -> timeoutId s = None) ->
    run tr s = Some s' ->
    stage s' <> AwaitFetch -> timeoutId s' = None.
Proof.
  induction tr as [|l tr IH]; intros s s' Hinv Hrun; cbn [Fetch.run] in Hrun.
  - injection Hrun as <-. exact Hinv.
  - destruct (step l s) as [s1|] eqn:Hstep; [|discriminate].
    apply (IH s1); [|exact Hrun].
    apply (step_timer_cleared l s); assumption.
Qed.

(** The body is only awaited of a response that was [ok]. *)
Lemma step_awaits_ok (l : Label) (s s' : State) :
  (forall r, stage s = AwaitText r -> ok r = true) ->
  step l s = Some s' ->
  forall r, stage s' = AwaitText r -> ok r = true.
Proof.
  intros Hinv Hstep r.
  destruct (step_inv l s s' Hstep)
    as [(_ & d & _ & ->)|(t & ev & _ & _ & _ & ->)].
  - unfold Fetch.onTimer. cbn. destruct (stage s) eqn:Hst; cbn;
      rewrite ?Hst; discriminate.
  - unfold Fetch.onNet. cbn [stage setNow].
    destruct (stage s) eqn:Hst, ev; cbn [stage setNow catchBlock setStage];
      rewrite ?Hst; try discriminate; try apply Hinv.
    + unfold afterFetch. destruct (ok response) eqn:Hok; cbn.
      * intros H. injection H as <-. exact Hok.
      * discriminate.
    + unfold afterText.
      destruct ((length quote =? 0) || (length (trim quote) =? 0)); cbn;
        discriminate.
Qed.

Lemma run_awaits_ok (tr : list Label) :
  forall s s',
    (forall r, stage s = AwaitText r -> ok r = true) ->
    run tr s = Some s' ->
    forall r, stage s' = AwaitText r -> ok r = true.
Proof.
  induction tr as [|l tr IH]; intros s s' Hinv Hrun; cbn [Fetch.run] in Hrun.
  - injection Hrun as <-. exact Hinv.
  - destruct (step l s) as [s1|] eqn:Hstep; [|discriminate].
    apply (IH s1); [|exact Hrun].
    apply (step_awaits_ok l s); assumption.
Qed.

(** Once the call is settled no turn of the event loop changes its
    result, its abort flag or its timer. *)
Lemma step_settled (l : Label) (s s' : State) (r : Settlement) :
  stage s = Done r -> timeoutId s = None ->
  step l s = Some s' ->
  stage s' = Done r /\ timeoutId s' = None /\ aborted s' = aborted s.
Proof.
  intros Hst Htm Hstep.
  destruct (step_inv l s s' Hstep)
    as [(_ & d & Hd & _)|(t & ev & _ & _ & _ & ->)].
  - congruence.
  - unfold Fetch.onNet. cbn [stage setNow]. rewrite Hst.
    destruct ev; cbn; auto.
Qed.

Lemma run_settled (tr : list Label) :
  forall s s' r,
    stage s = Done r -> timeoutId s = None ->
    run tr s = Some s' ->
    stage s' = Done r /\ timeoutId s' = None /\ aborted s' = aborted s.
Proof.
  induction tr as [|l tr IH]; intros s s' r Hst Htm Hrun;
    cbn [Fetch.run] in Hrun.
  - injection Hrun as <-. auto.
  - destruct (step l s) as [s1|] eqn:Hstep; [|discriminate].
    destruct (step_settled l s s1 r Hst Htm Hstep) as (Hst1 & Htm1 & Hab1).
    destruct (IH s1 s' r Hst1 Htm1 Hrun) as (H1 & H2 & H3).
    repeat split; congruence.
Qed.

Lemma blank_body_iff (quote : jsstring) :
  (length quote =? 0) || (length (trim quote) =? 0) = true
  <-> trim quote = [].
Proof.
  rewrite orb_true_iff, !Z.eqb_eq. unfold length. split.
  - intros [H|H].
    + destruct quote; [reflexivity|cbn in H; lia].
    + destruct (trim quote); [reflexivity|cbn in H; lia].
  - intros ->. right. reflexivity.
Qed.

(** C5.  At any point of a call, the next turn of the event loop makes the
    call fail with the empty-body error exactly when the call is waiting
    for the body of a response with a success status and the body that
    arrives is empty once trimmed. *)
Theorem empty_body_exactly (t0 : Z) (tr : list Label) (s : State)
  (l : Label) (s' : State) :
  run tr (init t0) = Some s ->
  step l s = Some s' ->
  settled s = false ->
  ((exists m, stage s' = Done (Rejected empty_body m))
   <-> (exists r t quote,
           stage s = AwaitText r /\ ok r = true
           /\ l = LNet t (TextFulfils quote) /\ trim quote = [])).
Proof.
  intros Hrun Hstep Hpending.
  assert (Hok : forall r, stage s = AwaitText r -> ok r = true).
  { apply (run_awaits_ok tr (init t0) s); [discriminate|exact Hrun]. }
  unfold settled in Hpending.
  destruct (step_inv l s s' Hstep)
    as [(-> & d & _ & ->)|(t & ev & -> & _ & _ & ->)].
  - split.
    + intros [m Hm]. unfold Fetch.onTimer in Hm. cbn in Hm.
      destruct (stage s); discriminate.
    + intros (r & t & quote & _ & _ & Hl & _). discriminate.
  - unfold Fetch.onNet. cbn [stage setNow].
    destruct (stage s) as [|r|res] eqn:Hst; [| |discriminate].
    + split.
      * intros [m Hm].
        destruct ev; try (cbn in Hm; rewrite ?Hst in Hm; discriminate).
        unfold afterFetch in Hm. destruct (negb (ok response)); discriminate.
      * intros (r & t1 & quote & Hr & _). discriminate.
    + split.
      * intros [m Hm].
        destruct ev; try (cbn in Hm; rewrite ?Hst in Hm; discriminate).
        exists r, t, quote. unfold afterText in Hm.
        destruct ((length quote =? 0) || (length (trim quote) =? 0)) eqn:Hb;
          [|discriminate].
        repeat split; auto. now apply blank_body_iff.
      * intros (r1 & t1 & quote & _ & _ & Hl & Hblank).
        injection Hl as _ ->. unfold afterText.
        apply blank_body_iff in Hblank. rewrite Hblank.
        eexists. reflexivity.
Qed.

(** C6.  When nothing has come from the network by the time the timer is
    due, 5000 ms after the call, and something comes later, the timer
    task has run first: the request is aborted and the call is rejected
    as timed out, whatever arrives afterwards. *)
Theorem late_response_times_out (t0 : Z) (pre post : list Label) (t : Z)
  (ev : NetEvent) (s : State) :
  run (pre ++ LNet t ev :: post) (init t0) = Some s ->
  t0 + 5000 < t ->
  (forall l, In l pre -> l = LTimer) ->
  stage s = Done (Rejected timeout abortMessage)
  /\ aborted s = true
  /\ timeoutId s = None.
Proof.
  intros Hrun Hlate Hpre.
  destruct pre as [|l pre].
  - cbn [app Fetch.run Fetch.step init now timeoutId] in Hrun.
    unfold timeoutMs in Hrun.
    destruct (Z.leb_spec t (t0 + 5000)) as [Hle|_]; [lia|].
    rewrite andb_false_r in Hrun. discriminate.
  - assert (l = LTimer) as -> by (apply Hpre; now left).
    cbn [app Fetch.run Fetch.step init timeoutId] in Hrun.
    set (s1 := onTimer _) in Hrun.
    assert (Hs1 : stage s1 = Done (Rejected timeout abortMessage)
                  /\ timeoutId s1 = None /\ aborted s1 = true)
      by (repeat split).
    destruct Hs1 as (Hst & Htm & Hab).
    destruct (run_settled _ s1 s _ Hst Htm Hrun) as (H1 & H2 & H3).
    repeat split; congruence.
Qed.

(** C10.  In every state a call reaches, if the call is settled then its
    timer is not pending. *)
Theorem settled_timer_cleared (t0 : Z) (tr : list Label) (s : State) :
  run tr (init t0) = Some s ->
  settled s = true ->
  timeoutId s = None.
Proof.
  intros Hrun Hset.
  apply (run_timer_cleared tr (init t0) s); [|exact Hrun|].
  - intros H. now contradiction H.
  - unfold settled in Hset. destruct (stage s); discriminate.
Qed.

End FetchFacts.

(** *** The paths of a call, run

    A call made at time 0 in a browser whose [AbortError] says
    ["signal is aborted without reason"]. *)

Section FetchRuns.

Import Fetch Scenario.

(** The five ways a call settles; the timer is pending in none. *)
Example settlement_paths :
  run abortMessage
    [LNet 120 (FetchFulfils response200); LNet 130 (TextFulfils (str " Hi "))]
    (init 0)
  = Some {| now := 130; stage := Done (Fulfilled (str "Hi"));
            timeoutId := None; aborted := false |}
  /\ run abortMessage [LNet 120 (FetchFulfils response503)] (init 0)
     = Some {| now := 120;
               stage := Done (Rejected (http_status 503)
                                (str "HTTP 503: Service Unavailable"));
               timeoutId := None; aborted := false |}
  /\ run abortMessage
       [LNet 120 (FetchFulfils response200); LNet 130 (TextFulfils [])]
       (init 0)
     = Some {| now := 130; stage := Done (Rejected empty_body emptyMessage);
               timeoutId := None; aborted := false |}
  /\ run abortMessage [LNet 120 (FetchRejects failedToFetch)] (init 0)
     = Some {| now := 120;
               stage := Done (Rejected network (str "Failed to fetch"));
               timeoutId := None; aborted := false |}
  /\ run abortMessage [LTimer] (init 0)
     = Some {| now := 5000; stage := Done (Rejected timeout abortMessage);
               timeoutId := None; aborted := true |}.
Proof. repeat split. Qed.

(** The scenario of the empty body: the response is [ok] and its text is
    the empty string. *)
Lemma empty_body_exactly_witness :
  let s := {| now := 120; stage := AwaitText response200;
              timeoutId := None; aborted := false |} in
  let s' := {| now := 130; stage := Done (Rejected empty_body emptyMessage);
               timeoutId := None; aborted := false |} in
  run abortMessage [LNet 120 (FetchFulfils response200)] (init 0) = Some s
  /\ step abortMessage (LNet 130 (TextFulfils [])) s = Some s'
  /\ settled s = false
  /\ ((exists m, stage s' = Done (Rejected empty_body m))
      <-> (exists r t quote,
              stage s = AwaitText r /\ ok r = true
              /\ LNet 130 (TextFulfils []) = LNet t (TextFulfils quote)
              /\ trim quote = [])).
Proof.
  intros s s'. split; [reflexivity|]. split; [reflexivity|].
  split; [reflexivity|].
  apply (empty_body_exactly abortMessage 0
           [LNet 120 (FetchFulfils response200)] s
           (LNet 130 (TextFulfils [])) s'); reflexivity.
Defined.

(** The scenario of the late response: the headers arrive 5001 ms after
    the call and the body one millisecond later. *)
Lemma late_response_times_out_witness :
  let s := {| now := 5002; stage := Done (Rejected timeout abortMessage);
              timeoutId := None; aborted := true |} in
  run abortMessage
    ([LTimer] ++ LNet 5001 (FetchFulfils response200)
       :: [LNet 5002 (TextFulfils (str "Hi"))])
    (init 0) = Some s
  /\ 0 + 5000 < 5001
  /\ (forall l, In l [LTimer] -> l = LTimer)
  /\ stage s = Done (Rejected timeout abortMessage)
  /\ aborted s = true
  /\ timeoutId s = None.
Proof.
  intros s.
  assert (Hrun : run abortMessage
                   ([LTimer] ++ LNet 5001 (FetchFulfils response200)
                      :: [LNet 5002 (TextFulfils (str "Hi"))])
                   (init 0) = Some s) by reflexivity.
  assert (Hlate : 0 + 5000 < 5001) by lia.
  assert (Hpre : forall l, In l [LTimer] -> l = LTimer).
  { intros l [<-|[]]. reflexivity. }
  split; [exact Hrun|]. split; [exact Hlate|]. split; [exact Hpre|].
  exact (late_response_times_out abortMessage 0 [LTimer]
           [LNet 5002 (TextFulfils (str "Hi"))] 5001
           (FetchFulfils response200) s Hrun Hlate Hpre).
Defined.

(** The path of a successful call. *)
Lemma settled_timer_cleared_witness :
  let s := {| now := 130; stage := Done (Fulfilled (str "Hi"));
              timeoutId := None; aborted := false |} in
  run abortMessage
    [LNet 120 (FetchFulfils response200); LNet 130 (TextFulfils (str " Hi "))]
    (init 0) = Some s
  /\ settled s = true
  /\ timeoutId s = None.
Proof.
  intros s. split; [reflexivity|]. split; [reflexivity|].
  apply (settled_timer_cleared abortMessage 0
           [LNet 120 (FetchFulfils response200);
            LNet 130 (TextFulfils (str " Hi "))] s); reflexivity.
Defined.

End FetchRuns.

(** ** Rounding *)

Section Rounding.

Import Float64.

Local Open Scope Q_scope.

Lemma pow2_pos (e : Z) : 0 < pow2 e.
Proof. unfold pow2. apply Qpower_0_lt. reflexivity. Qed.

Lemma pow2_nonneg_exp (p : Z) : (0 <= p)%Z -> pow2 p == inject_Z (2 ^ p).
Proof. intros Hp. unfold pow2. now rewrite Zpower_Qpower. Qed.

Lemma pow2_opp (e : Z) : pow2 (- e) == / pow2 e.
Proof. unfold pow2. apply Qpower_opp. Qed.

(** Rounding to the nearest integer does not cross an integer. *)
Lemma nearestEven_ge (x : Q) (m : Z) :
  inject_Z m <= x -> (m <= nearestEven x)%Z.
Proof.
  intros Hm. unfold nearestEven.
  assert (Hf : (m <= Qfloor x)%Z).
  { rewrite <- (Qfloor_Z m). now apply Qfloor_resp_le. }
  destruct (x - inject_Z (Qfloor x) ?= 1 # 2); [destruct (Z.even _)| |]; lia.
Qed.

Lemma nearestEven_le (x : Q) (m : Z) :
  x <= inject_Z m -> (nearestEven x <= m)%Z.
Proof.
  intros Hm. unfold nearestEven.
  pose proof (Qfloor_le x) as Hf.
  assert (Hfm : (Qfloor x <= m)%Z).
  { rewrite Zle_Qle. now apply Qle_trans with x. }
  assert (Hstep : inject_Z (Qfloor x) < x -> (Qfloor x + 1 <= m)%Z).
  { intros Hlt. assert (Qfloor x < m)%Z; [|lia].
    rewrite Zlt_Qlt. now apply Qlt_le_trans with x. }
  assert (Hhalf : 1 # 2 <= x - inject_Z (Qfloor x) ->
                  inject_Z (Qfloor x) < x).
  { intros H. apply Qlt_minus_iff.
    apply Qlt_le_trans with (1 # 2); [reflexivity|].
    unfold Qminus in H. exact H. }
  destruct (x - inject_Z (Qfloor x) ?= 1 # 2) eqn:Hcmp.
  - apply Qeq_alt in Hcmp.
    destruct (Z.even (Qfloor x)); [exact Hfm|].
    apply Hstep, Hhalf. rewrite Hcmp. apply Qle_refl.
  - exact Hfm.
  - apply Qgt_alt in Hcmp. apply Hstep, Hhalf. now apply Qlt_le_weak.
Qed.

Lemma floorLog2_small (x : Q) :
  0 < x -> x < inject_Z (2 ^ 53) -> (floorLog2 x <= 52)%Z.
Proof.
  intros Hpos Hlt. destruct x as [n d]. unfold floorLog2. cbn [Qnum Qden].
  assert (Hn : (0 < n)%Z).
  { unfold Qlt in Hpos. cbn in Hpos. lia. }
  assert (Hnd : (n < 2 ^ 53 * Zpos d)%Z).
  { unfold Qlt in Hlt. cbn [Qnum Qden inject_Z] in Hlt. lia. }
  assert (He : (Z.log2 n - Z.log2 (Zpos d) <= 53)%Z).
  { assert (Z.log2 n <= Z.log2 (Zpos d * 2 ^ 53))%Z
      by (apply Z.log2_le_mono; lia).
    rewrite Z.log2_mul_pow2 in H by lia. lia. }
  destruct (Qle_bool (pow2 (Z.log2 n - Z.log2 (Zpos d))) (n # d)) eqn:Hb;
    [|lia].
  destruct (Z.eq_dec (Z.log2 n - Z.log2 (Zpos d)) 53) as [E|]; [|lia].
  exfalso. rewrite E in Hb. apply Qle_bool_iff in Hb.
  rewrite pow2_nonneg_exp in Hb by lia.
  apply (Qlt_irrefl (n # d)).
  now apply Qlt_le_trans with (inject_Z (2 ^ 53)).
Qed.

Lemma ulpExp_small (x : Q) :
  0 < x -> x < inject_Z (2 ^ 53) -> (ulpExp x <= 0)%Z.
Proof.
  intros Hpos Hlt. unfold ulpExp.
  assert (Habs : Qabs x = x).
  { destruct x as [n d]. unfold Qlt in Hpos. cbn in Hpos.
    cbn [Qabs]. f_equal. lia. }
  rewrite Habs. pose proof (floorLog2_small x Hpos Hlt). lia.
Qed.

Lemma round_unfold (x : Q) :
  ~ x == 0 ->
  round x == inject_Z (nearestEven (x / pow2 (ulpExp x))) * pow2 (ulpExp x).
Proof.
  intros Hx. unfold round.
  destruct (Qeq_bool x 0) eqn:Hb.
  - apply Qeq_bool_iff in Hb. contradiction.
  - apply Qred_correct.
Qed.

(** An operation whose exact result lies between two integers below
    [2^53] returns a value between the same integers: integers of that
    size are binary64 values, and rounding is to a nearest value. *)
Lemma round_between (x : Q) (lo hi : Z) :
  0 <= x -> x < inject_Z (2 ^ 53) ->
  inject_Z lo <= x <= inject_Z hi ->
  inject_Z lo <= round x <= inject_Z hi.
Proof.
  intros Hnn Hsmall [Hlo Hhi].
  destruct (Qeq_dec x 0) as [Hz|Hnz].
  - assert (Hr : round x = 0).
    { unfold round. apply Qeq_bool_iff in Hz. now rewrite Hz. }
    rewrite Hr. rewrite Hz in Hlo, Hhi. now split.
  - assert (Hpos : 0 < x).
    { apply Qle_lteq in Hnn. destruct Hnn as [H|H]; [exact H|].
      symmetry in H. contradiction. }
    pose proof (ulpExp_small x Hpos Hsmall) as He.
    rewrite (round_unfold x Hnz).
    set (e := ulpExp x) in *.
    pose proof (pow2_pos e) as Hpe.
    assert (Hinv : pow2 (- e) == / pow2 e) by apply pow2_opp.
    assert (Hint : pow2 (- e) == inject_Z (2 ^ (- e)))
      by (apply pow2_nonneg_exp; lia).
    assert (Hscale : forall m : Z,
               inject_Z (m * 2 ^ (- e)) * pow2 e == inject_Z m).
    { intros m. rewrite inject_Z_mult, <- Hint, Hinv. field.
      intros H0. rewrite H0 in Hpe. discriminate. }
    split.
    + rewrite <- (Hscale lo). apply Qmult_le_compat_r; [|now apply Qlt_le_weak].
      rewrite <- Zle_Qle. apply nearestEven_ge.
      rewrite inject_Z_mult, <- Hint, Hinv.
      unfold Qdiv. apply Qmult_le_compat_r; [exact Hlo|].
      apply Qlt_le_weak. now apply Qinv_lt_0_compat.
    + rewrite <- (Hscale hi). apply Qmult_le_compat_r; [|now apply Qlt_le_weak].
      rewrite <- Zle_Qle. apply nearestEven_le.
      rewrite inject_Z_mult, <- Hint, Hinv.
      unfold Qdiv. apply Qmult_le_compat_r; [exact Hhi|].
      apply Qlt_le_weak. now apply Qinv_lt_0_compat.
Qed.

(** [r * a + b] in binary64, for [0 <= r < 1] and small natural numbers
    [a] and [b], lies in [[b, a + b]], both ends included. *)
Lemma scaled_random_between (r : Q) (a b : Z) :
  (0 <= a < 2 ^ 26)%Z -> (0 <= b < 2 ^ 26)%Z ->
  0 <= r < 1 ->
  inject_Z b <= add (mul r (inject_Z a)) (inject_Z b) <= inject_Z (a + b).
Proof.
  intros Ha Hb [Hr0 Hr1].
  assert (Ha0 : 0 <= inject_Z a) by (change 0 with (inject_Z 0); rewrite <- Zle_Qle; lia).
  assert (Hprod : inject_Z 0 <= r * inject_Z a <= inject_Z a).
  { split.
    - change (inject_Z 0) with 0. now apply Qmult_le_0_compat.
    - rewrite <- (Qmult_1_l (inject_Z a)) at 2.
      apply Qmult_le_compat_r; [now apply Qlt_le_weak|exact Ha0]. }
  assert (Hbig : forall m : Z, (m < 2 ^ 53)%Z -> forall x, x <= inject_Z m ->
                   x < inject_Z (2 ^ 53)).
  { intros m Hm x Hx. apply Qle_lt_trans with (inject_Z m); [exact Hx|].
    now rewrite <- Zlt_Qlt. }
  assert (Hmul : inject_Z 0 <= mul r (inject_Z a) <= inject_Z a).
  { unfold mul. apply round_between; [apply Hprod| |exact Hprod].
    apply (Hbig a); [lia|apply Hprod]. }
  unfold add at 1.
  assert (Hsum : inject_Z b <= mul r (inject_Z a) + inject_Z b
                 <= inject_Z (a + b)).
  { split.
    - rewrite <- (Qplus_0_l (inject_Z b)) at 1.
      apply Qplus_le_compat; [apply Hmul|apply Qle_refl].
    - rewrite inject_Z_plus.
      apply Qplus_le_compat; [apply Hmul|apply Qle_refl]. }
  apply round_between; [| |exact Hsum].
  - apply Qle_trans with (inject_Z b); [|apply Hsum].
    change 0 with (inject_Z 0). rewrite <- Zle_Qle. lia.
  - apply (Hbig (a + b)%Z); [lia|apply Hsum].
Qed.

End Rounding.

(** ** The delay between two reveals *)

Section Delay.

Import Typewriter.

Local Open Scope Q_scope.

Lemma letter_not_space (char : option Z) :
  isAsciiLetter char = true ->
  isSpace char = false /\ isPunctuation char = false.
Proof.
  destruct char as [c|]; [|now split]. unfold isAsciiLetter, isSpace,
    isPunctuation, inClass. cbn [existsb].
  rewrite orb_true_iff, !andb_true_iff, !Z.leb_le. intros H.
  split; repeat (apply orb_false_iff; split); try apply Z.eqb_neq;
    try reflexivity; lia.
Qed.

Lemma punctuation_not_space (char : option Z) :
  isPunctuation char = true -> isSpace char = false.
Proof.
  destruct char as [c|]; [|discriminate]. unfold isSpace, isPunctuation,
    inClass. cbn [existsb]. rewrite !orb_true_iff, !Z.eqb_eq.
  intros H. apply Z.eqb_neq. lia.
Qed.

(** C7, as the code has it.  The delay is 50 ms after a space and 200 ms
    after one of the seven full-width marks of the source's class; after a
    letter of [a-zA-Z] it lies between 70 and 100 ms and after any other
    character between 90 and 130 ms, the upper ends included. *)
Theorem delayOf_by_class (char : option Z) (r : Q) :
  0 <= r < 1 ->
  (isSpace char = true -> delayOf char r = 50)
  /\ (isPunctuation char = true -> delayOf char r = 200)
  /\ (isAsciiLetter char = true -> 70 <= delayOf char r <= 100)
  /\ (isSpace char = false -> isPunctuation char = false ->
      isAsciiLetter char = false -> 90 <= delayOf char r <= 130).
Proof.
  intros Hr. unfold delayOf. repeat split.
  - intros ->. reflexivity.
  - intros Hp. now rewrite (punctuation_not_space char Hp), Hp.
  - destruct (letter_not_space char H) as [-> ->]. rewrite H.
    apply (scaled_random_between r 30 70); [lia|lia|exact Hr].
  - destruct (letter_not_space char H) as [-> ->]. rewrite H.
    apply (scaled_random_between r 30 70); [lia|lia|exact Hr].
  - rewrite H, H0, H1.
    apply (scaled_random_between r 40 90); [lia|lia|exact Hr].
  - rewrite H, H0, H1.
    apply (scaled_random_between r 40 90); [lia|lia|exact Hr].
Qed.

(** A letter revealed when [Math.random()] returns its largest value. *)
Lemma delayOf_by_class_witness :
  0 <= Scenario.largestRandom < 1
  /\ isAsciiLetter (Some 0x61%Z) = true
  /\ 70 <= delayOf (Some 0x61%Z) Scenario.largestRandom <= 100.
Proof.
  assert (Hr : 0 <= Scenario.largestRandom < 1)
    by (split; [vm_compute; discriminate|reflexivity]).
  split; [exact Hr|]. split; [reflexivity|].
  apply (delayOf_by_class (Some 0x61%Z) Scenario.largestRandom Hr).
  reflexivity.
Defined.

(** C7, as the claim has it, fails at the upper ends.  When
    [Math.random()] returns [1 - 2^-52], the product [r * 30] is rounded
    to [30 - 2^-47] and the sum [100 - 2^-47] lies halfway between two
    binary64 values: it is rounded to the even one, 100.  In the same way
    [r * 40 + 90] is 130. *)
Lemma delay_reaches_upper_end :
  0 <= Scenario.largestRandom < 1
  /\ isAsciiLetter (Some 0x61%Z) = true
  /\ ~ delayOf (Some 0x61%Z) Scenario.largestRandom < 100
  /\ isSpace (Some 0x4E00%Z) = false
  /\ isPunctuation (Some 0x4E00%Z) = false
  /\ isAsciiLetter (Some 0x4E00%Z) = false
  /\ ~ delayOf (Some 0x4E00%Z) Scenario.largestRandom < 130.
Proof.
  split; [split; [vm_compute; discriminate|reflexivity]|].
  split; [reflexivity|].
  split; [intros H; vm_compute in H; discriminate|].
  split; [reflexivity|]. split; [reflexivity|]. split; [reflexivity|].
  intros H; vm_compute in H; discriminate.
Qed.

(** The binary64 arithmetic of the kernel computes the same delays: at the
    largest random value, at the one below it and at one half. *)
Example delay_agrees_with_binary64 :
  Scenario.ofFloat 0x1.ffffffffffffep-1 = Some Scenario.largestRandom
  /\ Scenario.ofFloat (0x1.ffffffffffffep-1 * 30 + 70)%float
     = Some (delayOf (Some 0x61%Z) Scenario.largestRandom)
  /\ Scenario.ofFloat (0x1.ffffffffffffep-1 * 40 + 90)%float
     = Some (delayOf (Some 0x4E00%Z) Scenario.largestRandom)
  /\ Scenario.ofFloat (0x1.ffffffffffffdp-1 * 30 + 70)%float
     = Some (delayOf (Some 0x61%Z)
               (9007199254740989 # 9007199254740992))
  /\ Scenario.ofFloat (0x1p-1 * 30 + 70)%float
     = Some (delayOf (Some 0x61%Z) (1 # 2)).
Proof. vm_compute. repeat split. Qed.

End Delay.

(** ** Sessions of the typewriter *)

Section Sessions.

Import Typewriter.

Local Arguments Float64.round : simpl never.
Local Arguments timerDelay : simpl never.
Local Arguments delayOf : simpl never.
Local Arguments substring : simpl never.

Lemma nth_error_replace {A : Type} (l : list A) (n : nat) (x y : A) :
  nth_error l n = Some y ->
  nth_error (firstn n l ++ x :: skipn (S n) l) n = Some x.
Proof.
  intros Hn.
  assert (Hlen : (n < List.length l)%nat)
    by (apply nth_error_Some; congruence).
  rewrite nth_error_app2; rewrite List.length_firstn;
    replace (Nat.min n (List.length l)) with n by lia;
    [now rewrite Nat.sub_diag|lia].
Qed.

Lemma nth_error_replace_other {A : Type} (l : list A) (n m : nat) (x : A) :
  (n < List.length l)%nat -> m <> n ->
  nth_error (firstn n l ++ x :: skipn (S n) l) m = nth_error l m.
Proof.
  intros Hlen Hne.
  destruct (Nat.lt_ge_cases m n) as [Hlt|Hge].
  - rewrite nth_error_app1 by (rewrite List.length_firstn; lia).
    rewrite nth_error_firstn.
    destruct (Nat.ltb_spec m n); [reflexivity|lia].
  - rewrite nth_error_app2 by (rewrite List.length_firstn; lia).
    rewrite List.length_firstn.
    replace (Nat.min n (List.length l)) with n by lia.
    destruct (m - n)%nat as [|k] eqn:Hk; [lia|]. cbn [nth_error].
    rewrite nth_error_skipn. f_equal. lia.
Qed.

(** Case analysis of one run of [typeNextChar]. *)
Ltac typeNextChar_cases sid s :=
  unfold typeNextChar;
  destruct (nth_error (sessions s) sid) as [?ses|] eqn:?Hnth;
  [ unfold typingDelay; cbv beta iota zeta delta [random];
    repeat match goal with
           | |- context [if ?c then _ else _] => destruct c eqn:?Hc
           end
  | ].

(** A reveal tick clears no timer. *)
Lemma typeNextChar_keeps_timers (sid : nat) (s : State) (tm : Timer) :
  In tm (timers s) -> In tm (timers (typeNextChar sid s)).
Proof.
  intros Hin. typeNextChar_cases sid s; cbn; auto;
    repeat (apply in_or_app; left); exact Hin.
Qed.

Lemma typeNextChar_keeps_tweens (sid : nat) (s : State) :
  tweens (typeNextChar sid s) = tweens s.
Proof. typeNextChar_cases sid s; reflexivity. Qed.

(** A reveal tick changes no session but its own. *)
Lemma typeNextChar_keeps_sessions (sid other : nat) (s : State) :
  other <> sid ->
  nth_error (sessions (typeNextChar sid s)) other
  = nth_error (sessions s) other.
Proof.
  intros Hne.
  assert (Hlen : forall ses, nth_error (sessions s) sid = Some ses ->
                             (sid < List.length (sessions s))%nat).
  { intros ses H. apply nth_error_Some. congruence. }
  typeNextChar_cases sid s; cbn; try reflexivity;
    apply nth_error_replace_other; eauto.
Qed.

(** A reveal tick of a session that has characters left writes the next
    prefix of the session's own text into the session's target. *)
Lemma typeNextChar_writes_prefix (sid : nat) (s : State) (ses : Session) :
  nth_error (sessions s) sid = Some ses ->
  currentIndex ses < length (text ses) ->
  textContent (dom (typeNextChar sid s) (target ses))
  = substring (text ses) 0 (currentIndex ses + 1).
Proof.
  intros Hses Hidx. typeNextChar_cases sid s.
  all: try discriminate Hses; injection Hses as ->.
  1-4: cbn; now rewrite Nat.eqb_refl.
  apply Z.ltb_ge in Hc. lia.
Qed.

(** A reveal tick of a session that has no character left writes
    nothing. *)
Lemma typeNextChar_done_text (sid : nat) (s : State) (ses : Session)
  (el : ElementId) :
  nth_error (sessions s) sid = Some ses ->
  length (text ses) <= currentIndex ses ->
  textContent (dom (typeNextChar sid s) el) = textContent (dom s el).
Proof.
  intros Hses Hidx. typeNextChar_cases sid s.
  all: try discriminate Hses; injection Hses as ->.
  1-4: apply Z.ltb_lt in Hc; lia.
  cbn. destruct (Nat.eqb el (target ses)); reflexivity.
Qed.

(** C8, as the code has it.  [startTypewriterAnimation] kills the tweens
    of its target, empties the target and writes the first character of
    the new text, all before it returns; but it clears no timer and leaves
    the earlier sessions as they are, so that a session started earlier on
    the same target still writes the next prefix of its own text at its
    next tick. *)
Theorem startTypewriterAnimation_clears_no_timer (el : ElementId)
  (txt : jsstring) (s : State) :
  let s' := startTypewriterAnimation el txt s in
  (forall tm, In tm (timers s) -> In tm (timers s'))
  /\ ~ In el (tweens s')
  /\ textContent (dom s' el) = substring txt 0 1
  /\ (forall sid ses,
         nth_error (sessions s) sid = Some ses ->
         nth_error (sessions s') sid = Some ses
         /\ (currentIndex ses < length (text ses) ->
             textContent (dom (typeNextChar sid s') (target ses))
             = substring (text ses) 0 (currentIndex ses + 1))).
Proof.
  intros s'. subst s'. unfold startTypewriterAnimation. cbv zeta.
  set (s1 := killTweensOf el s).
  set (s2 := updElement el _ s1).
  set (sid0 := List.length (sessions s2)).
  set (new := {| target := el; text := txt; currentIndex := 0 |}).
  set (s3 := setSessions (sessions s2 ++ [new]) s2).
  assert (Hnew : nth_error (sessions s3) sid0 = Some new).
  { cbn [s3 sessions setSessions]. rewrite nth_error_app2 by (subst sid0; lia).
    subst sid0. now rewrite Nat.sub_diag. }
  assert (Hold : forall sid ses,
             nth_error (sessions s) sid = Some ses ->
             nth_error (sessions s3) sid = Some ses /\ sid <> sid0).
  { intros sid ses H.
    assert (Hlt : (sid < List.length (sessions s))%nat)
      by (apply nth_error_Some; congruence).
    split.
    - cbn [s3 sessions setSessions]. rewrite nth_error_app1; [exact H|exact Hlt].
    - subst sid0. cbn. lia. }
  repeat split.
  - intros tm Hin. apply typeNextChar_keeps_timers. exact Hin.
  - rewrite typeNextChar_keeps_tweens. cbn. intros Hin.
    apply filter_In in Hin. destruct Hin as [_ Hin].
    now rewrite Nat.eqb_refl in Hin.
  - destruct (Z.ltb_spec 0 (length txt)) as [Hlt|Hge].
    + apply (typeNextChar_writes_prefix sid0 s3 new Hnew). exact Hlt.
    + rewrite (typeNextChar_done_text sid0 s3 new el Hnew) by exact Hge.
      cbn. rewrite Nat.eqb_refl. cbn.
      assert (Hnil : txt = []).
      { destruct txt; [reflexivity|]. unfold length in Hge. cbn in Hge. lia. }
      now rewrite Hnil.
  - destruct (Hold sid ses H) as [H3 Hne].
    rewrite typeNextChar_keeps_sessions by exact Hne. exact H3.
  - intros Hidx. destruct (Hold sid ses H) as [H3 Hne].
    apply typeNextChar_writes_prefix; [|exact Hidx].
    rewrite typeNextChar_keeps_sessions by exact Hne. exact H3.
Qed.

End Sessions.

(** ** The blink phase *)

Section Blink.

Import Typewriter.

Local Arguments Float64.round : simpl never.
Local Arguments timerDelay : simpl never.
Local Arguments Z.add : simpl never.
Local Arguments Nat.eqb : simpl never.
Local Arguments Z.mul : simpl never.
Local Arguments Z.max : simpl never.

Lemma find_app {A : Type} (f : A -> bool) (l1 l2 : list A) :
  find f (l1 ++ l2)
  = match find f l1 with
    | Some x => Some x
    | None => find f l2
    end.
Proof.
  induction l1 as [|a l1 IH]; cbn [app find]; [reflexivity|].
  destruct (f a); [reflexivity|exact IH].
Qed.

Lemma filter_length_lt {A : Type} (f : A -> bool) (l : list A) (x : A) :
  In x l -> f x = false ->
  (List.length (filter f l) < List.length l)%nat.
Proof.
  intros Hin Hx. induction l as [|a l IH]; [contradiction|].
  cbn [filter]. pose proof (filter_length_le f l) as Hle.
  destruct Hin as [->|Hin].
  - rewrite Hx. cbn [List.length]. lia.
  - specialize (IH Hin). destruct (f a); cbn [List.length]; lia.
Qed.

Lemma timerDelay_500 : timerDelay 500 = 500.
Proof. reflexivity. Qed.

Lemma timerDelay_30000 : timerDelay 30000 = 30000.
Proof. reflexivity. Qed.

(** [startCursorBlink] adds its two timers behind the pending ones. *)
Lemma startCursorBlink_timers (el : ElementId) (s : State) :
  timers (startCursorBlink el s)
  = timers s
    ++ blinkTimers el (List.length (blinkEnvs s)) (nextTimerId s) (now s) 0.
Proof.
  unfold startCursorBlink, blinkTimers. cbn.
  rewrite timerDelay_500, timerDelay_30000, <- app_assoc. cbn [app].
  repeat f_equal.
Qed.

Lemma startCursorBlink_blinking (el : ElementId) (s : State) :
  Forall (flashTimer (nextTimerId s) (now s)) (timers s) ->
  blinking el (List.length (blinkEnvs s)) (nextTimerId s) (now s) 0
    (startCursorBlink el s).
Proof.
  intros Hfl. unfold blinking. split; [lia|]. split; [|split; [|split]].
  - exists (timers s). split; [apply startCursorBlink_timers|].
    split; [exact Hfl|lia].
  - unfold startCursorBlink. cbn.
    rewrite nth_error_app2 by lia. now rewrite Nat.sub_diag.
  - unfold startCursorBlink. cbn. lia.
  - lia.
Qed.

Lemma blinkTimers_filter (el : ElementId) (env id : nat) (t0 k : Z) (i : nat) :
  (i < id)%nat ->
  filter (fun tm => negb (Nat.eqb (timerId tm) i)) (blinkTimers el env id t0 k)
  = blinkTimers el env id t0 k.
Proof.
  intros Hlt. unfold blinkTimers. cbn [filter timerId].
  assert (H1 : Nat.eqb id i = false) by (apply Nat.eqb_neq; lia).
  assert (H2 : Nat.eqb (S id) i = false) by (apply Nat.eqb_neq; lia).
  now rewrite H1, H2.
Qed.

Lemma flashes_find (id : nat) (t0 : Z) (flashes : list Timer) (i : nat) :
  Forall (flashTimer id t0) flashes ->
  (id <= i)%nat ->
  find (fun tm => Nat.eqb (timerId tm) i) flashes = None.
Proof.
  intros Hfl Hi. induction Hfl as [|tm l Htm _ IH]; [reflexivity|].
  cbn [find]. destruct Htm as (_ & _ & Hid & _).
  assert (H : Nat.eqb (timerId tm) i = false) by (apply Nat.eqb_neq; lia).
  now rewrite H.
Qed.

(** While a flash timer is pending neither blink timer is the earliest. *)
Lemma flashes_first (id : nat) (t0 d : Z) (flashes rest : list Timer)
  (s : State) :
  Forall (flashTimer id t0) flashes ->
  timers s = flashes ++ rest ->
  t0 + 500 <= d ->
  isEarliest d s = true ->
  flashes = [].
Proof.
  intros Hfl Htm Hd He. destruct flashes as [|tm l]; [reflexivity|].
  exfalso. unfold isEarliest in He. rewrite Htm in He. cbn in He.
  apply andb_true_iff in He. destruct He as [He _].
  apply Z.leb_le in He. inversion Hfl as [|? ? (_ & _ & _ & Hdue) _]. lia.
Qed.

(** One turn of the event loop during the blink phase. *)
Lemma step_blinking (el : ElementId) (env id : nat) (t0 k : Z) (s s' : State)
  (i : nat) :
  blinking el env id t0 k s ->
  step (LFire i) s = Some s' ->
  (blinking el env id t0 k s' /\ k = 0
   /\ (List.length (timers s') < List.length (timers s))%nat)
  \/ (blinking el env id t0 (k + 1) s'
      /\ List.length (timers s') = List.length (timers s))
  \/ blinkStopped el env t0 k s'.
Proof.
  intros (Hk & (flashes & Htm & Hfl & Hk0) & Henv & Hnow & Hborder) Hstep.
  cbn [step] in Hstep. rewrite Htm, find_app in Hstep.
  destruct (find (fun tm => Nat.eqb (timerId tm) i) flashes) as [tm|] eqn:Hfind.
  - (* a flash timer runs *)
    left. apply find_some in Hfind. destruct Hfind as [Hin Hid].
    apply Nat.eqb_eq in Hid.
    pose proof (proj1 (Forall_forall _ _) Hfl tm Hin)
      as ((e & Htask) & Hper & Hlt & Hdue).
    assert (Hkz : k = 0).
    { destruct (Z.eq_dec k 0) as [|Hne]; [assumption|].
      rewrite Hk0 in Hin by lia. contradiction. }
    destruct (isEarliest (due tm) s); [|discriminate].
    injection Hstep as <-. rewrite Htask. unfold rearm. rewrite Hper.
    cbn [runTask]. subst k. split; [|split; [reflexivity|]].
    + split; [lia|]. split; [|split; [|split]].
      * exists (filter (fun o => negb (Nat.eqb (timerId o) (timerId tm)))
                  flashes).
        cbn. rewrite Htm, filter_app, blinkTimers_filter by exact Hlt.
        split; [reflexivity|]. split; [|lia].
        apply Forall_forall. intros o Ho. apply filter_In in Ho.
        apply (proj1 (Forall_forall _ _) Hfl). tauto.
      * cbn. exact Henv.
      * cbn in Hnow |- *. lia.
      * lia.
    + cbn. rewrite Htm, filter_app, blinkTimers_filter by exact Hlt.
      rewrite !List.length_app.
      assert (List.length
                (filter (fun o => negb (Nat.eqb (timerId o) (timerId tm)))
                   flashes) < List.length flashes)%nat; [|lia].
      apply (filter_length_lt _ _ tm Hin). now rewrite Nat.eqb_refl.
  - right. cbn [find blinkTimers timerId] in Hstep.
    destruct (Nat.eqb_spec id i) as [<-|Hni].
    + (* the interval timer runs [blink] *)
      left. cbn [due task period] in Hstep.
      destruct (isEarliest (t0 + 500 * (k + 1)) s) eqn:He; [|discriminate].
      assert (Hnil : flashes = []).
      { apply (flashes_first id t0 (t0 + 500 * (k + 1)) flashes
                 (blinkTimers el env id t0 k) s); auto. lia. }
      subst flashes. cbn [app] in Htm.
      assert (Hk60 : k + 1 <= 60).
      { unfold isEarliest in He. rewrite Htm in He. cbn in He.
        rewrite !andb_true_iff, !Z.leb_le in He. lia. }
      injection Hstep as <-. cbn [runTask]. unfold blink, rearm.
      cbn [period blinkEnvs setTimers setNow]. rewrite Henv.
      cbn [blinkTarget isVisible blinkCount].
      destruct (Z.gtb_spec (k + 1) 120) as [Hgt|_]; [lia|].
      assert (Hne : Nat.eqb (S id) id = false) by (apply Nat.eqb_neq; lia).
      split.
      * split; [lia|]. split; [|split; [|split]].
        -- exists []. cbn. rewrite Htm. cbn. rewrite Nat.eqb_refl, Hne.
           split; [|split; [constructor|reflexivity]].
           unfold blinkTimers.
           now replace (t0 + 500 * (k + 1) + 500)
             with (t0 + 500 * (k + 1 + 1)) by lia.
        -- cbn. rewrite (nth_error_replace _ _ _ _ Henv).
           now rewrite Z.add_1_r, Z.even_succ, <- Z.negb_even.
        -- destruct (Z.eqb_spec (k + 1) 0) as [|_]; [lia|].
           cbn.
           destruct (Z.eqb_spec k 0) as [->|_]; lia.
        -- intros _. cbn. rewrite Nat.eqb_refl. cbn.
           rewrite Z.add_1_r, Z.odd_succ. reflexivity.
      * cbn. now rewrite !length_map.
    + destruct (Nat.eqb_spec (S id) i) as [<-|Hnsi]; [|discriminate].
      (* the stop timer runs *)
      right. cbn [due task period] in Hstep.
      destruct (isEarliest (t0 + 30000) s) eqn:He; [|discriminate].
      assert (Hnil : flashes = []).
      { apply (flashes_first id t0 (t0 + 30000) flashes
                 (blinkTimers el env id t0 k) s); auto. lia. }
      subst flashes. cbn [app] in Htm.
      assert (Hk59 : 59 <= k).
      { unfold isEarliest in He. rewrite Htm in He. cbn in He.
        rewrite !andb_true_iff, !Z.leb_le in He. lia. }
      injection Hstep as <-. cbn [runTask]. unfold blinkStop, rearm.
      cbn [period]. split; [lia|].
      assert (Hne : Nat.eqb id (S id) = false) by (apply Nat.eqb_neq; lia).
      split; [|split; [|split]].
      * cbn. rewrite Htm. cbn. rewrite !Nat.eqb_refl, Hne. cbn.
        now rewrite Nat.eqb_refl.
      * cbn. exact Henv.
      * cbn. destruct (Z.eqb_spec k 0); lia.
      * cbn. now rewrite Nat.eqb_refl.
Qed.

(** Nothing runs once the blinking is over. *)
Lemma step_stopped (el : ElementId) (env : nat) (t0 k : Z) (s : State)
  (i : nat) :
  blinkStopped el env t0 k s -> step (LFire i) s = None.
Proof.
  intros (_ & Htm & _). cbn [step]. now rewrite Htm.
Qed.

(** While the cursor blinks and no flash timer is pending, a timer can
    run: the blinking cannot stay as it is for ever. *)
Lemma blinking_progress (el : ElementId) (env id : nat) (t0 k : Z)
  (s : State) :
  blinking el env id t0 k s ->
  timers s = blinkTimers el env id t0 k ->
  exists i s', step (LFire i) s = Some s'.
Proof.
  intros (Hk & _) Htm.
  assert (Hne : Nat.eqb id (S id) = false) by (apply Nat.eqb_neq; lia).
  destruct (Z.lt_ge_cases k 60) as [Hlt|Hge].
  - exists id. cbn [step]. rewrite Htm. cbn [blinkTimers find timerId].
    rewrite Nat.eqb_refl. cbn [due]. unfold isEarliest. rewrite Htm.
    cbn [blinkTimers forallb due].
    destruct (Z.leb_spec (t0 + 500 * (k + 1)) (t0 + 500 * (k + 1))); [|lia].
    destruct (Z.leb_spec (t0 + 500 * (k + 1)) (t0 + 30000)); [|lia].
    cbn [andb]. eexists. reflexivity.
  - exists (S id). cbn [step]. rewrite Htm. cbn [blinkTimers find timerId].
    rewrite Hne, Nat.eqb_refl. cbn [due]. unfold isEarliest. rewrite Htm.
    cbn [blinkTimers forallb due].
    destruct (Z.leb_spec (t0 + 30000) (t0 + 500 * (k + 1))); [|lia].
    destruct (Z.leb_spec (t0 + 30000) (t0 + 30000)); [|lia].
    cbn [andb]. eexists. reflexivity.
Qed.

Lemma run_blinking (tr : list Label) :
  forall (el : ElementId) (env id : nat) (t0 k : Z) (s s' : State),
    blinking el env id t0 k s ->
    Forall isFire tr ->
    run tr s = Some s' ->
    (exists k', blinking el env id t0 k' s' \/ blinkStopped el env t0 k' s')
    /\ Z.of_nat (List.length tr) <= Z.of_nat (List.length (timers s)) + 59 - k.
Proof.
  induction tr as [|l tr IH]; intros el env id t0 k s s' Hinv Hfire Hrun.
  - injection Hrun as <-. split; [exists k; now left|].
    destruct Hinv as (Hk & (flashes & Htm & _) & _). rewrite Htm.
    rewrite List.length_app. cbn. lia.
  - inversion Hfire as [|? ? [i ->] Hrest]. subst.
    cbn [run] in Hrun.
    destruct (step (LFire i) s) as [s1|] eqn:Hstep; [|discriminate].
    destruct (step_blinking el env id t0 k s s1 i Hinv Hstep)
      as [(Hinv1 & _ & Hlen)|[(Hinv1 & Hlen)|Hstop]].
    + destruct (IH el env id t0 k s1 s' Hinv1 Hrest Hrun) as [Hex Hb].
      split; [exact Hex|]. cbn [List.length]. lia.
    + destruct (IH el env id t0 (k + 1) s1 s' Hinv1 Hrest Hrun) as [Hex Hb].
      split; [exact Hex|]. cbn [List.length]. lia.
    + destruct tr as [|l2 tr].
      * injection Hrun as <-. split; [exists k; now right|].
        destruct Hinv as (Hk & (flashes & Htm & _) & _). rewrite Htm.
        rewrite List.length_app. cbn. lia.
      * inversion Hrest as [|? ? [i2 ->] _]. subst. cbn [run] in Hrun.
        now rewrite (step_stopped el env t0 k s1 i2 Hstop) in Hrun.
Qed.

(** X12.  The blink phase of a session that is alone on the page.  The
    reveal tick that finds the index at the length of the text starts the
    blink phase.  When nothing but flash timers of earlier ticks is pending
    and only timers run, [blink] runs every 500 ms, at most 60 times, each
    run toggling the border, until the timer set for 30000 ms runs: then no
    timer is left and the cursor is off; and the event loop takes at most
    as many turns as there were flash timers pending, plus 61. *)
Lemma cursor_blink_alone (sid : nat) (ses : Session) (s : State)
  (tr : list Label) (s' : State) :
  nth_error (sessions s) sid = Some ses ->
  length (text ses) <= currentIndex ses ->
  Forall (flashTimer (nextTimerId s) (now s)) (timers s) ->
  Forall isFire tr ->
  run tr (typeNextChar sid s) = Some s' ->
  typeNextChar sid s
  = throwUncaught (startCursorBlink (target ses)
                     (setTyping (target ses) false s))
  /\ (exists k,
         blinking (target ses) (List.length (blinkEnvs s)) (nextTimerId s)
           (now s) k s'
         \/ blinkStopped (target ses) (List.length (blinkEnvs s)) (now s) k s')
  /\ (forall k,
         timers s'
         = blinkTimers (target ses) (List.length (blinkEnvs s))
             (nextTimerId s) (now s) k ->
         blinking (target ses) (List.length (blinkEnvs s)) (nextTimerId s)
           (now s) k s' ->
         exists i s'', step (LFire i) s' = Some s'')
  /\ Z.of_nat (List.length tr) <= Z.of_nat (List.length (timers s)) + 61.
Proof.
  intros Hses Hidx Hfl Hfire Hrun.
  assert (Heq : typeNextChar sid s
                = throwUncaught (startCursorBlink (target ses)
                                   (setTyping (target ses) false s))).
  { unfold typeNextChar. rewrite Hses.
    destruct (Z.ltb_spec (currentIndex ses) (length (text ses))); [lia|].
    reflexivity. }
  split; [exact Heq|]. rewrite Heq in Hrun.
  set (el := target ses) in *.
  assert (Hinv : blinking el (List.length (blinkEnvs s)) (nextTimerId s)
                   (now s) 0
                   (throwUncaught (startCursorBlink el (setTyping el false s)))).
  { pose proof (startCursorBlink_blinking el (setTyping el false s) Hfl)
      as H.
    exact H. }
  destruct (run_blinking tr _ _ _ _ _ _ _ Hinv Hfire Hrun) as [Hex Hb].
  split; [exact Hex|].
  split.
  { intros k Htm Hb'. exact (blinking_progress _ _ _ _ _ _ Hb' Htm). }
  assert (Hlen : List.length
                   (timers (throwUncaught
                              (startCursorBlink el (setTyping el false s))))
                 = S (S (List.length (timers s)))).
  { change (timers (throwUncaught ?x)) with (timers x).
    rewrite startCursorBlink_timers, List.length_app. cbn. lia. }
  rewrite Hlen in Hb. lia.
Qed.

End Blink.

(** ** The typewriter, run *)

Section TypewriterRuns.

Import Typewriter.

(** Two renders on the same element, one behind the other, as the two
    calls of [setupTypewriterEffect] in [init] make them: the timer of the
    first session is still pending after the second render, and when it
    runs the first text is written over the second. *)
Lemma second_render_keeps_first_session :
  let s1 :=
    startTypewriterAnimation 0%nat (str "AB") (initial (fun _ => 1 # 2)) in
  let s2 := startTypewriterAnimation 0%nat (str "XY") s1 in
  textContent (dom s2 0%nat) = str "X"
  /\ nth_error (sessions s2) 0
     = Some {| target := 0%nat; text := str "AB"; currentIndex := 1 |}
  /\ In {| timerId := 0; due := 85; period := None; task := TypeNextChar 0 |}
       (timers s2)
  /\ exists s3,
       step (LFire 0) s2 = Some s3
       /\ textContent (dom s3 0%nat) = str "AB".
Proof.
  cbv zeta. split; [vm_compute; reflexivity|].
  split; [vm_compute; reflexivity|].
  split; [vm_compute; left; reflexivity|].
  eexists. split; [vm_compute; reflexivity|vm_compute; reflexivity].
Qed.

Lemma startTypewriterAnimation_clears_no_timer_witness :
  let s1 :=
    startTypewriterAnimation 0%nat (str "AB") (initial (fun _ => 1 # 2)) in
  let s2 := startTypewriterAnimation 0%nat (str "XY") s1 in
  let ses := {| target := 0%nat; text := str "AB"; currentIndex := 1 |} in
  nth_error (sessions s1) 0 = Some ses
  /\ currentIndex ses < length (text ses)
  /\ textContent (dom (typeNextChar 0 s2) (target ses))
     = substring (text ses) 0 (currentIndex ses + 1)
  /\ substring (text ses) 0 (currentIndex ses + 1) = str "AB".
Proof.
  intros s1 s2 ses.
  assert (Hses : nth_error (sessions s1) 0 = Some ses)
    by (vm_compute; reflexivity).
  assert (Hidx : currentIndex ses < length (text ses))
    by (vm_compute; reflexivity).
  split; [exact Hses|]. split; [exact Hidx|].
  split; [|vm_compute; reflexivity].
  destruct (startTypewriterAnimation_clears_no_timer 0%nat (str "XY") s1)
    as (_ & _ & _ & Hprior).
  destruct (Hprior 0%nat ses Hses) as [_ Hwrite].
  exact (Hwrite Hidx).
Defined.

(** The reveal of ["H"] with a flash of the cursor still pending when the
    last tick runs, 73 ms after the render: the flash timer, 60 runs of
    [blink] and the stop timer follow. *)
Lemma cursor_blink_alone_run :
  let rnd := fun n : nat => match n with O => 1 # 10 | _ => 9 # 10 end in
  let s1 := startTypewriterAnimation 0%nat (str "H") (initial rnd) in
  let s := clearTimer 0 (setNow 73 s1) in
  let ses := {| target := 0%nat; text := str "H"; currentIndex := 1 |} in
  let tr := LFire 1 :: repeat (LFire 2) 60 ++ [LFire 3] in
  step (LFire 0) s1 = Some (typeNextChar 0 s)
  /\ nth_error (sessions s) 0 = Some ses
  /\ length (text ses) <= currentIndex ses
  /\ Forall (flashTimer (nextTimerId s) (now s)) (timers s)
  /\ Forall isFire tr
  /\ exists s',
       run tr (typeNextChar 0 s) = Some s'
       /\ (exists k,
              blinking (target ses) (List.length (blinkEnvs s))
                (nextTimerId s) (now s) k s'
              \/ blinkStopped (target ses) (List.length (blinkEnvs s))
                   (now s) k s')
       /\ timers s' = []
       /\ borderRight (dom s' 0%nat) = BorderNone
       /\ now s' = 30073.
Proof.
  intros rnd s1 s ses tr.
  assert (Hses : nth_error (sessions s) 0 = Some ses)
    by (vm_compute; reflexivity).
  assert (Hidx : length (text ses) <= currentIndex ses)
    by (vm_compute; discriminate).
  assert (Hfl : Forall (flashTimer (nextTimerId s) (now s)) (timers s)).
  { vm_compute. constructor; [|constructor].
    split; [eexists; reflexivity|]. split; [reflexivity|].
    split; [repeat constructor|reflexivity]. }
  assert (Hfire : Forall isFire tr).
  { apply Forall_forall. intros l Hl. destruct Hl as [<-|Hl].
    - now exists 1%nat.
    - apply in_app_or in Hl. destruct Hl as [Hl|[<-|[]]].
      + apply repeat_spec in Hl. subst l. now exists 2%nat.
      + now exists 3%nat. }
  assert (Hfacts :
            option_map
              (fun s' => (timers s', borderRight (dom s' 0%nat), now s'))
              (run tr (typeNextChar 0 s))
            = Some ([], BorderNone, 30073))
    by (vm_compute; reflexivity).
  split; [vm_compute; reflexivity|].
  split; [exact Hses|]. split; [exact Hidx|]. split; [exact Hfl|].
  split; [exact Hfire|].
  destruct (run tr (typeNextChar 0 s)) as [s'|] eqn:Hrun;
    [|discriminate Hfacts].
  injection Hfacts as Htm Hborder Hnow.
  exists s'. split; [reflexivity|].
  split; [|split; [exact Htm|split; [exact Hborder|exact Hnow]]].
  exact (proj1 (proj2 (cursor_blink_alone 0 ses s tr s' Hses Hidx Hfl
                         Hfire Hrun))).
Defined.

(** The scenario of the specification: ["Hi!"] is revealed in three ticks,
    the fourth tick starts the blinking. *)
Example reveal_hi :
  exists s1 s2 s3 s4,
    run [LRender 0 0%nat (str "Hi!")] (initial (fun _ => 1 # 2)) = Some s1
    /\ textContent (dom s1 0%nat) = str "H"
    /\ step (LFire 0) s1 = Some s2
    /\ textContent (dom s2 0%nat) = str "Hi"
    /\ step (LFire 1) s2 = Some s3
    /\ textContent (dom s3 0%nat) = str "Hi!"
    /\ step (LFire 2) s3 = Some s4
    /\ textContent (dom s4 0%nat) = str "Hi!"
    /\ timers s4 = blinkTimers 0%nat 0 3 280 0.
Proof.
  do 4 eexists.
  split; [vm_compute; reflexivity|]. split; [vm_compute; reflexivity|].
  split; [vm_compute; reflexivity|]. split; [vm_compute; reflexivity|].
  split; [vm_compute; reflexivity|]. split; [vm_compute; reflexivity|].
  split; [vm_compute; reflexivity|]. split; vm_compute; reflexivity.
Qed.

End TypewriterRuns.

(** ** A blink loop among the other timers *)

Section Frame.

Import Typewriter.

Local Arguments Float64.round : simpl never.
Local Arguments timerDelay : simpl never.
Local Arguments delayOf : simpl never.
Local Arguments substring : simpl never.
Local Arguments Z.add : simpl never.
Local Arguments Z.mul : simpl never.
Local Arguments Z.max : simpl never.
Local Arguments Nat.eqb : simpl never.

(** Clearing timers leaves the identifiers of the others distinct. *)
Lemma timerIds_filter (keep : Timer -> bool) (l : list Timer) :
  NoDup (map timerId l) -> NoDup (map timerId (filter keep l)).
Proof.
  induction l as [|tm l IH]; cbn [map filter]; intros Hnd; [constructor|].
  inversion Hnd as [|? ? Hfresh Hnd']. subst.
  destruct (keep tm); [|now apply IH]. cbn [map].
  constructor; [|now apply IH].
  intros Hin. apply Hfresh. apply in_map_iff in Hin.
  destruct Hin as (o & Ho & Hin). apply filter_In in Hin.
  apply in_map_iff. exists o. tauto.
Qed.

Lemma length_replace {A : Type} (l : list A) (n : nat) (x : A) :
  (n < List.length l)%nat ->
  List.length (firstn n l ++ x :: skipn (S n) l) = List.length l.
Proof.
  intros Hn. rewrite List.length_app, List.length_firstn. cbn [List.length].
  rewrite List.length_skipn. lia.
Qed.

(** *** What the closures do to the timers and to the environments *)

Lemma startCursorBlink_fields (el : ElementId) (s : State) :
  now (startCursorBlink el s) = now s
  /\ nextTimerId (startCursorBlink el s) = S (S (nextTimerId s))
  /\ timers (startCursorBlink el s)
     = timers s
       ++ [intervalTimer (List.length (blinkEnvs s)) (nextTimerId s)
             (now s) 0;
           stopTimer el (nextTimerId s) (now s)]
  /\ blinkEnvs (startCursorBlink el s)
     = blinkEnvs s
       ++ [{| blinkTarget := el; isVisible := true; blinkCount := 0 |}].
Proof.
  repeat split. apply startCursorBlink_timers.
Qed.

(** One run of [typeNextChar] either finds no session, or reveals a
    character and sets one or two timers, or starts the blinking. *)
Lemma typeNextChar_shape (sid : nat) (s : State) :
  let s' := typeNextChar sid s in
  s' = s
  \/ (now s' = now s /\ blinkEnvs s' = blinkEnvs s
      /\ exists d,
           (nextTimerId s' = S (nextTimerId s)
            /\ timers s'
               = timers s
                 ++ [{| timerId := nextTimerId s; due := d; period := None;
                        task := TypeNextChar sid |}])
           \/ (exists e d',
                  nextTimerId s' = S (S (nextTimerId s))
                  /\ timers s'
                     = timers s
                       ++ [{| timerId := nextTimerId s; due := d;
                              period := None; task := TypeNextChar sid |};
                           {| timerId := S (nextTimerId s); due := d';
                              period := None; task := FlashOff e |}]))
  \/ (exists ses,
         nth_error (sessions s) sid = Some ses
         /\ length (text ses) <= currentIndex ses
         /\ s' = throwUncaught (startCursorBlink (target ses)
                                  (setTyping (target ses) false s))).
Proof.
  cbv zeta. unfold typeNextChar.
  destruct (nth_error (sessions s) sid) as [ses|] eqn:Hses; [|now left].
  right.
  destruct (Z.ltb_spec (currentIndex ses) (length (text ses))) as [Hlt|Hge].
  - left. unfold typingDelay. cbv beta iota zeta delta [random].
    repeat match goal with
           | |- context [if ?c then _ else _] => destruct c eqn:?Hc
           end;
      (split; [reflexivity|]; split; [reflexivity|]; eexists;
       first [ left; split; reflexivity
             | right; do 2 eexists; split;
               [reflexivity|cbn; rewrite <- app_assoc; reflexivity] ]).
  - right. exists ses. now repeat split.
Qed.

Lemma grows_refl (s : State) : grows s s.
Proof.
  split; [reflexivity|]. split; [lia|]. exists [], [].
  rewrite !app_nil_r. repeat split; constructor.
Qed.

Ltac added_ok :=
  repeat (apply Forall_cons || apply Forall_nil);
  unfold intervalTimer, stopTimer; cbn [timerId task];
  repeat split; intros; try discriminate; try lia;
  match goal with
  | H : _ = _ |- _ => injection H; intros; subst; lia
  end.

Ltac added_nodup :=
  cbn [map timerId intervalTimer stopTimer];
  repeat (apply NoDup_cons || apply NoDup_nil);
  cbn [In]; intuition lia.

Lemma typeNextChar_grows (sid : nat) (s : State) :
  grows s (typeNextChar sid s).
Proof.
  destruct (typeNextChar_shape sid s)
    as [->|[(Hnow & Henv & d & Hcase)|(ses & _ & _ & ->)]].
  - apply grows_refl.
  - split; [exact Hnow|].
    destruct Hcase as [(Hnext & Htm)|(e & d' & Hnext & Htm)];
      (split; [lia|]); eexists; exists [];
      (split; [exact Htm|]); (split; [now rewrite app_nil_r|]);
      rewrite Hnext; (split; [added_nodup|added_ok]).
  - destruct (startCursorBlink_fields (target ses)
                (setTyping (target ses) false s))
      as (Hnow & Hnext & Htm & Henv).
    split; [exact Hnow|].
    split; [change (nextTimerId (throwUncaught ?x)) with (nextTimerId x);
            rewrite Hnext; cbn; lia|].
    do 2 eexists. split; [exact Htm|]. split; [exact Henv|].
    change (nextTimerId (throwUncaught ?x)) with (nextTimerId x).
    change (blinkEnvs (throwUncaught ?x)) with (blinkEnvs x).
    rewrite Hnext, Henv, List.length_app. cbn [List.length].
    change (nextTimerId (setTyping ?a ?b ?x)) with (nextTimerId x).
    change (blinkEnvs (setTyping ?a ?b ?x)) with (blinkEnvs x).
    split; [added_nodup|added_ok].
Qed.

Lemma startTypewriterAnimation_grows (el : ElementId) (txt : jsstring)
  (s : State) :
  grows s (startTypewriterAnimation el txt s).
Proof.
  unfold startTypewriterAnimation. cbv zeta.
  match goal with
  | |- grows _ (typeNextChar ?sid ?s3) =>
      pose proof (typeNextChar_grows sid s3) as H
  end.
  exact H.
Qed.

End Frame.

Section WellFormed.

Import Typewriter.

Local Arguments Float64.round : simpl never.
Local Arguments timerDelay : simpl never.
Local Arguments delayOf : simpl never.
Local Arguments substring : simpl never.
Local Arguments Z.add : simpl never.
Local Arguments Z.mul : simpl never.
Local Arguments Z.max : simpl never.
Local Arguments Nat.eqb : simpl never.

(** The two kinds of turn of the event loop. *)
Lemma turn_inv (l : Label) (s s' : State) :
  step l s = Some s' ->
  (exists i tm,
      l = LFire i
      /\ find (fun o => Nat.eqb (timerId o) i) (timers s) = Some tm
      /\ isEarliest (due tm) s = true
      /\ s' = runTask (task tm)
                (rearm tm (setNow (Z.max (now s) (due tm)) s)))
  \/ (exists t el txt,
         l = LRender t el txt
         /\ now s <= t
         /\ isEarliest t s = true
         /\ s' = startTypewriterAnimation el txt (setNow t s)).
Proof.
  destruct l as [i|t el txt]; cbn [step]; intros Hstep.
  - left. destruct (find _ (timers s)) as [tm|] eqn:Hfind; [|discriminate].
    destruct (isEarliest (due tm) s) eqn:He; [|discriminate].
    injection Hstep as <-. exists i, tm. now repeat split.
  - right. destruct (Z.leb_spec (now s) t) as [Hnow|_]; [|discriminate].
    cbn [andb] in Hstep.
    destruct (isEarliest t s) eqn:He; [|discriminate].
    injection Hstep as <-. exists t, el, txt. now repeat split.
Qed.

Lemma isEarliest_spec (d : Z) (s : State) :
  isEarliest d s = true <-> (forall o, In o (timers s) -> d <= due o).
Proof.
  unfold isEarliest. rewrite forallb_forall. split; intros H o Ho.
  - apply Z.leb_le. now apply H.
  - apply Z.leb_le. now apply H.
Qed.

(** Well-formedness looks at the timers, at the next identifier and at
    the number of closure environments only. *)
Lemma wellFormed_ext (s s' : State) :
  timers s' = timers s ->
  nextTimerId s' = nextTimerId s ->
  List.length (blinkEnvs s') = List.length (blinkEnvs s) ->
  wellFormed s -> wellFormed s'.
Proof.
  intros Htm Hnext Hlen [Hnd Hok]. unfold wellFormed, timerOk in *.
  rewrite Htm, Hnext, Hlen. now split.
Qed.

Lemma wellFormed_filter (p : Timer -> bool) (s s' : State) :
  timers s' = filter p (timers s) ->
  nextTimerId s' = nextTimerId s ->
  List.length (blinkEnvs s') = List.length (blinkEnvs s) ->
  wellFormed s -> wellFormed s'.
Proof.
  intros Htm Hnext Hlen [Hnd Hok]. unfold wellFormed, timerOk in *.
  rewrite Htm, Hnext, Hlen. split.
  - now apply timerIds_filter.
  - apply Forall_forall. intros o Ho. apply filter_In in Ho.
    apply (proj1 (Forall_forall _ _) Hok). tauto.
Qed.

Lemma wellFormed_rearm (tm : Timer) (s : State) :
  wellFormed s -> wellFormed (rearm tm s).
Proof.
  intros Hwf. unfold rearm. destruct (period tm) as [p|].
  - destruct Hwf as [Hnd Hok]. unfold wellFormed, timerOk in *.
    cbn [timers nextTimerId blinkEnvs setTimers]. split.
    + rewrite map_map.
      erewrite map_ext; [exact Hnd|].
      intros o. now destruct (Nat.eqb (timerId o) (timerId tm)).
    + apply Forall_forall. intros o Ho. apply in_map_iff in Ho.
      destruct Ho as (x & <- & Hx).
      pose proof (proj1 (Forall_forall _ _) Hok x Hx) as Hxok.
      now destruct (Nat.eqb (timerId x) (timerId tm)).
  - revert Hwf. now apply wellFormed_filter with
      (p := fun o => negb (Nat.eqb (timerId o) (timerId tm))).
Qed.

Lemma wellFormed_grows (s s' : State) :
  wellFormed s -> grows s s' -> wellFormed s'.
Proof.
  intros [Hnd Hok] (_ & Hnext & added & envs & Htm & Henv & Hnda & Hadded).
  unfold wellFormed, timerOk in *. rewrite Htm. split.
  - rewrite map_app. apply NoDup_app; [exact Hnd|exact Hnda|].
    intros i Hi Hia. apply in_map_iff in Hi. destruct Hi as (x & <- & Hx).
    apply in_map_iff in Hia. destruct Hia as (y & Heq & Hy).
    pose proof (proj1 (Forall_forall _ _) Hok x Hx) as (Hxid & _).
    pose proof (proj1 (Forall_forall _ _) Hadded y Hy) as (Hyid & _).
    lia.
  - assert (Hlen : (List.length (blinkEnvs s) <= List.length (blinkEnvs s'))%nat)
      by (rewrite Henv, List.length_app; lia).
    apply Forall_app. split; apply Forall_forall; intros o Ho.
    + pose proof (proj1 (Forall_forall _ _) Hok o Ho) as (H1 & H2 & H3).
      split; [lia|]. split.
      * intros e He. specialize (H2 e He). lia.
      * intros el i Hi. specialize (H3 el i Hi). lia.
    + pose proof (proj1 (Forall_forall _ _) Hadded o Ho) as (H1 & H2 & H3).
      split; [lia|]. split.
      * intros e He. specialize (H2 e He). lia.
      * intros el i Hi. specialize (H3 el i Hi). lia.
Qed.

Lemma blink_fields (env : nat) (s : State) :
  timers (blink env s) = timers s
  /\ nextTimerId (blink env s) = nextTimerId s
  /\ now (blink env s) = now s
  /\ List.length (blinkEnvs (blink env s)) = List.length (blinkEnvs s).
Proof.
  unfold blink. destruct (nth_error (blinkEnvs s) env) as [b|] eqn:Hb;
    [|now repeat split].
  assert (Hlen : (env < List.length (blinkEnvs s))%nat)
    by (apply nth_error_Some; congruence).
  cbv zeta. cbn [blinkCount].
  destruct (blinkCount b + 1 >? 120);
    (split; [reflexivity|]; split; [reflexivity|]; split; [reflexivity|]);
    cbn [blinkEnvs setBorderRight setBlinkEnvs updElement setDom];
    now apply length_replace.
Qed.

Lemma wellFormed_runTask (tk : Task) (s : State) :
  wellFormed s -> wellFormed (runTask tk s).
Proof.
  intros Hwf. destruct tk as [sid|el|env|el i]; cbn [runTask].
  - exact (wellFormed_grows _ _ Hwf (typeNextChar_grows sid s)).
  - revert Hwf. now apply wellFormed_ext.
  - destruct (blink_fields env s) as (H1 & H2 & _ & H4).
    revert Hwf. now apply wellFormed_ext.
  - revert Hwf. now apply wellFormed_filter with
      (p := fun o => negb (Nat.eqb (timerId o) i)).
Qed.

Lemma wellFormed_step (l : Label) (s s' : State) :
  wellFormed s -> step l s = Some s' -> wellFormed s'.
Proof.
  intros Hwf Hstep.
  destruct (turn_inv l s s' Hstep)
    as [(i & tm & _ & _ & _ & ->)|(t & el & txt & _ & _ & _ & ->)].
  - apply wellFormed_runTask, wellFormed_rearm.
    revert Hwf. now apply wellFormed_ext.
  - apply (wellFormed_grows (setNow t s)).
    + revert Hwf. now apply wellFormed_ext.
    + apply startTypewriterAnimation_grows.
Qed.

Lemma wellFormed_run (tr : list Label) :
  forall s s', wellFormed s -> run tr s = Some s' -> wellFormed s'.
Proof.
  induction tr as [|l tr IH]; intros s s' Hwf Hrun; cbn [run] in Hrun.
  - now injection Hrun as <-.
  - destruct (step l s) as [s1|] eqn:Hstep; [|discriminate].
    apply (IH s1); [|exact Hrun]. now apply (wellFormed_step l s).
Qed.

Lemma wellFormed_initial (rnd : nat -> Q) : wellFormed (initial rnd).
Proof. split; constructor. Qed.

(** Among pending timers one is due first. *)
Lemma earliest_exists (l : list Timer) :
  l <> [] -> exists tm, In tm l /\ forall o, In o l -> due tm <= due o.
Proof.
  induction l as [|a l IH]; [congruence|]. intros _.
  destruct l as [|b l].
  - exists a. split; [now left|]. intros o [<-|[]]. lia.
  - destruct IH as (tm & Hin & Hmin); [discriminate|].
    destruct (Z.le_gt_cases (due a) (due tm)) as [Hle|Hgt].
    + exists a. split; [now left|]. intros o [<-|Ho]; [lia|].
      specialize (Hmin o Ho). lia.
    + exists tm. split; [now right|]. intros o [<-|Ho]; [lia|].
      now apply Hmin.
Qed.

Lemma find_by_id (l : list Timer) (tm : Timer) :
  NoDup (map timerId l) -> In tm l ->
  find (fun o => Nat.eqb (timerId o) (timerId tm)) l = Some tm.
Proof.
  induction l as [|a l IH]; [contradiction|]. cbn [map find].
  intros Hnd Hin. inversion Hnd as [|? ? Hnotin Hnd']. subst.
  destruct Hin as [->|Hin].
  - now rewrite Nat.eqb_refl.
  - destruct (Nat.eqb_spec (timerId a) (timerId tm)) as [Heq|_];
      [|now apply IH].
    exfalso. apply Hnotin. rewrite Heq. now apply in_map.
Qed.

(** While a timer is pending the event loop can take a turn. *)
Lemma wellFormed_progress (s : State) :
  wellFormed s -> timers s <> [] ->
  exists i s', step (LFire i) s = Some s'.
Proof.
  intros [Hnd _] Hne.
  destruct (earliest_exists (timers s) Hne) as (tm & Hin & Hmin).
  exists (timerId tm). cbn [step]. rewrite (find_by_id _ _ Hnd Hin).
  assert (He : isEarliest (due tm) s = true) by now apply isEarliest_spec.
  rewrite He. eexists. reflexivity.
Qed.

End WellFormed.

Section Loop.

Import Typewriter.

Local Arguments Float64.round : simpl never.
Local Arguments timerDelay : simpl never.
Local Arguments delayOf : simpl never.
Local Arguments substring : simpl never.
Local Arguments Z.add : simpl never.
Local Arguments Z.mul : simpl never.
Local Arguments Z.max : simpl never.
Local Arguments Nat.eqb : simpl never.

Variables (el : ElementId) (env id : nat) (t0 : Z).

Local Abbreviation ours k :=
  (fun tm => tm = intervalTimer env id t0 k
             \/ tm = stopTimer el id t0
             \/ foreignTimer env id tm).

(** The two phases look at the clock, the timers, the next identifier
    and the closure environment of the loop only. *)
Lemma loopRunning_ext (k : Z) (s s' : State) :
  now s' = now s -> timers s' = timers s ->
  nextTimerId s' = nextTimerId s ->
  nth_error (blinkEnvs s') env = nth_error (blinkEnvs s) env ->
  loopRunning el env id t0 k s -> loopRunning el env id t0 k s'.
Proof.
  unfold loopRunning. intros -> -> -> ->. tauto.
Qed.

Lemma loopStopped_ext (k : Z) (s s' : State) :
  now s <= now s' -> timers s' = timers s ->
  nextTimerId s' = nextTimerId s ->
  nth_error (blinkEnvs s') env = nth_error (blinkEnvs s) env ->
  loopStopped el env id t0 k s -> loopStopped el env id t0 k s'.
Proof.
  unfold loopStopped. intros Hnow -> -> ->.
  intros (H1 & H2 & H3 & H4 & H5). repeat split; try assumption; lia.
Qed.

(** Timers and environments that are added are none of the loop's. *)
Lemma grows_foreign (s s' : State) :
  (S id < nextTimerId s)%nat -> (env < List.length (blinkEnvs s))%nat ->
  grows s s' ->
  now s' = now s
  /\ (S id < nextTimerId s')%nat
  /\ nth_error (blinkEnvs s') env = nth_error (blinkEnvs s) env
  /\ exists added,
       timers s' = timers s ++ added /\ Forall (foreignTimer env id) added.
Proof.
  intros Hid Henv (Hnow & Hnext & added & envs & Htm & Hen & _ & Hadded).
  split; [exact Hnow|]. split; [lia|]. split.
  - rewrite Hen. now apply nth_error_app1.
  - exists added. split; [exact Htm|].
    apply Forall_forall. intros o Ho.
    pose proof (proj1 (Forall_forall _ _) Hadded o Ho) as (H1 & H2 & H3).
    unfold foreignTimer. split; [lia|]. split; [lia|]. split.
    + intros Hb. specialize (H2 env Hb). lia.
    + intros e i Hi. specialize (H3 e i Hi). lia.
Qed.

Lemma loopRunning_grows (k : Z) (s s' : State) :
  loopRunning el env id t0 k s -> grows s s' ->
  loopRunning el env id t0 k s'.
Proof.
  intros (Hk & Henv & Hid & Hall & Hint & Hstop & Hnow & Hnow') Hg.
  assert (Hlen : (env < List.length (blinkEnvs s))%nat)
    by (apply nth_error_Some; congruence).
  destruct (grows_foreign s s' Hid Hlen Hg)
    as (Hn & Hid' & Henv' & added & Htm & Hadded).
  unfold loopRunning. rewrite Hn, Henv', Htm.
  repeat split; try assumption; try lia.
  - apply Forall_app. split; [exact Hall|].
    revert Hadded. apply Forall_impl. tauto.
  - apply in_or_app. now left.
  - apply in_or_app. now left.
Qed.

Lemma loopStopped_grows (k : Z) (s s' : State) :
  loopStopped el env id t0 k s -> grows s s' ->
  loopStopped el env id t0 k s'.
Proof.
  intros (Hk & Henv & Hid & Hall & Hnow) Hg.
  assert (Hlen : (env < List.length (blinkEnvs s))%nat)
    by (apply nth_error_Some; congruence).
  destruct (grows_foreign s s' Hid Hlen Hg)
    as (Hn & Hid' & Henv' & added & Htm & Hadded).
  unfold loopStopped. rewrite Hn, Henv', Htm.
  repeat split; try assumption; try lia.
  apply Forall_app. now split.
Qed.

(** The loop starts in a well-formed state. *)
Lemma loop_starts (target : ElementId) (s : State) :
  wellFormed s ->
  loopRunning target (List.length (blinkEnvs s)) (nextTimerId s) (now s) 0
    (startCursorBlink target s).
Proof.
  intros [_ Hok].
  destruct (startCursorBlink_fields target s) as (Hnow & Hnext & Htm & Hen).
  unfold loopRunning. rewrite Hnow, Hnext, Htm, Hen.
  split; [lia|]. split.
  { rewrite nth_error_app2 by lia. now rewrite Nat.sub_diag. }
  split; [lia|]. split.
  { apply Forall_app. split.
    - apply Forall_forall. intros o Ho.
      pose proof (proj1 (Forall_forall _ _) Hok o Ho) as (H1 & H2 & H3).
      right. right. unfold foreignTimer. split; [lia|]. split; [lia|].
      split.
      + intros Hb. specialize (H2 _ Hb). lia.
      + intros e i Hi. specialize (H3 e i Hi). lia.
    - apply Forall_cons; [now left|].
      apply Forall_cons; [right; now left|]. apply Forall_nil. }
  split; [apply in_or_app; right; now left|].
  split; [apply in_or_app; right; right; now left|].
  lia.
Qed.

(** *** A turn that runs a timer of another owner *)

Lemma rearm_fields (tm : Timer) (s : State) :
  now (rearm tm s) = now s
  /\ nextTimerId (rearm tm s) = nextTimerId s
  /\ blinkEnvs (rearm tm s) = blinkEnvs s.
Proof. unfold rearm. destruct (period tm); now repeat split. Qed.

Lemma rearm_keeps (tm x : Timer) (s : State) :
  In x (timers s) -> timerId x <> timerId tm ->
  In x (timers (rearm tm s)).
Proof.
  intros Hin Hne. apply Nat.eqb_neq in Hne. unfold rearm.
  destruct (period tm) as [p|]; cbn [timers setTimers clearTimer].
  - apply in_map_iff. exists x. now rewrite Hne.
  - apply filter_In. now rewrite Hne.
Qed.

Lemma rearm_foreign (tm : Timer) (k : Z) (s : State) :
  foreignTimer env id tm ->
  Forall (ours k) (timers s) -> Forall (ours k) (timers (rearm tm s)).
Proof.
  intros (Hf1 & Hf2 & _) Hall. unfold rearm.
  destruct (period tm) as [p|]; cbn [timers setTimers clearTimer].
  - apply Forall_forall. intros o Ho. apply in_map_iff in Ho.
    destruct Ho as (x & <- & Hx).
    pose proof (proj1 (Forall_forall _ _) Hall x Hx) as Hcase.
    destruct (Nat.eqb_spec (timerId x) (timerId tm)) as [Heq|_];
      [|exact Hcase].
    right. right.
    destruct Hcase as [->|[->|Hfor]];
      [cbn in Heq; congruence|cbn in Heq; congruence|exact Hfor].
  - apply Forall_forall. intros o Ho. apply filter_In in Ho.
    apply (proj1 (Forall_forall _ _) Hall). tauto.
Qed.

Lemma rearm_all_foreign (tm : Timer) (s : State) :
  Forall (foreignTimer env id) (timers s) ->
  Forall (foreignTimer env id) (timers (rearm tm s)).
Proof.
  intros Hall. unfold rearm.
  destruct (period tm) as [p|]; cbn [timers setTimers clearTimer].
  - apply Forall_forall. intros o Ho. apply in_map_iff in Ho.
    destruct Ho as (x & <- & Hx).
    pose proof (proj1 (Forall_forall _ _) Hall x Hx) as Hfor.
    now destruct (Nat.eqb (timerId x) (timerId tm)).
  - apply Forall_forall. intros o Ho. apply filter_In in Ho.
    apply (proj1 (Forall_forall _ _) Hall). tauto.
Qed.

(** [blink] of another loop leaves the environment of this one. *)
Lemma blink_other_env (e : nat) (s : State) :
  e <> env ->
  nth_error (blinkEnvs (blink e s)) env = nth_error (blinkEnvs s) env.
Proof.
  intros Hne. unfold blink.
  destruct (nth_error (blinkEnvs s) e) as [b|] eqn:Hb; [|reflexivity].
  assert (Hlen : (e < List.length (blinkEnvs s))%nat)
    by (apply nth_error_Some; congruence).
  cbv zeta. cbn [blinkCount].
  destruct (blinkCount b + 1 >? 120);
    cbn [blinkEnvs setBorderRight setBlinkEnvs updElement setDom];
    apply nth_error_replace_other; auto.
Qed.

Lemma runTask_foreign_running (tk : Task) (k : Z) (s : State) :
  tk <> Blink env ->
  (forall e i, tk = BlinkStop e i -> i <> id /\ i <> S id) ->
  loopRunning el env id t0 k s ->
  loopRunning el env id t0 k (runTask tk s).
Proof.
  intros Hnb Hns Hrun. destruct tk as [sid|e|e|e i]; cbn [runTask].
  - exact (loopRunning_grows k _ _ Hrun (typeNextChar_grows sid s)).
  - revert Hrun. now apply loopRunning_ext.
  - destruct (blink_fields e s) as (H1 & H2 & H3 & _).
    revert Hrun. apply loopRunning_ext; try assumption.
    apply blink_other_env. congruence.
  - destruct (Hns e i eq_refl) as [Hi1 Hi2].
    destruct Hrun as (Hk & Henv & Hid & Hall & Hint & Hstop & Hnow).
    unfold loopRunning, blinkStop.
    cbn [now timers nextTimerId blinkEnvs setBorderRight updElement setDom
         clearTimer setTimers].
    repeat split; try assumption; try lia.
    + apply Forall_forall. intros o Ho. apply filter_In in Ho.
      apply (proj1 (Forall_forall _ _) Hall). tauto.
    + apply filter_In. split; [exact Hint|]. cbn [timerId intervalTimer].
      apply negb_true_iff, Nat.eqb_neq. congruence.
    + apply filter_In. split; [exact Hstop|]. cbn [timerId stopTimer].
      apply negb_true_iff, Nat.eqb_neq. congruence.
Qed.

Lemma runTask_foreign_stopped (tk : Task) (k : Z) (s : State) :
  tk <> Blink env ->
  loopStopped el env id t0 k s ->
  loopStopped el env id t0 k (runTask tk s).
Proof.
  intros Hnb Hst. destruct tk as [sid|e|e|e i]; cbn [runTask].
  - exact (loopStopped_grows k _ _ Hst (typeNextChar_grows sid s)).
  - revert Hst. apply loopStopped_ext; solve [reflexivity|cbn; lia].
  - destruct (blink_fields e s) as (H1 & H2 & H3 & _).
    revert Hst. apply loopStopped_ext; try assumption; [lia|].
    apply blink_other_env. congruence.
  - destruct Hst as (Hk & Henv & Hid & Hall & Hnow).
    unfold loopStopped, blinkStop.
    cbn [now timers nextTimerId blinkEnvs setBorderRight updElement setDom
         clearTimer setTimers].
    repeat split; try assumption; try lia.
    apply Forall_forall. intros o Ho. apply filter_In in Ho.
    apply (proj1 (Forall_forall _ _) Hall). tauto.
Qed.

End Loop.

Section LoopTurns.

Import Typewriter.

Local Arguments Float64.round : simpl never.
Local Arguments timerDelay : simpl never.
Local Arguments delayOf : simpl never.
Local Arguments substring : simpl never.
Local Arguments Z.add : simpl never.
Local Arguments Z.mul : simpl never.
Local Arguments Z.max : simpl never.
Local Arguments Nat.eqb : simpl never.

Variables (el : ElementId) (env id : nat) (t0 : Z).

(** One turn of the event loop while the loop runs: the turn is none of
    the loop's, or it is a run of [blink], 500 ms after the last one, that
    toggles the border, or it is the run of the stop timer, 30000 ms after
    the start, that ends the loop with the border off. *)
Lemma loop_turn (k : Z) (l : Label) (s s' : State) :
  loopRunning el env id t0 k s ->
  step l s = Some s' ->
  (l <> LFire id /\ l <> LFire (S id) /\ loopRunning el env id t0 k s')
  \/ (l = LFire id
      /\ loopRunning el env id t0 (k + 1) s'
      /\ now s' = t0 + 500 * (k + 1)
      /\ borderRight (dom s' el)
         = if Z.even k then BorderAccent else BorderNone)
  \/ (l = LFire (S id)
      /\ loopStopped el env id t0 k s'
      /\ now s' = t0 + 30000
      /\ borderRight (dom s' el) = BorderNone).
Proof.
  intros Hrun Hstep.
  pose proof Hrun as (Hk & Henv & Hid & Hall & Hint & Hstop & Hnow & Hnow').
  destruct (turn_inv l s s' Hstep)
    as [(i & tm & -> & Hfind & He & ->)
       |(t & e & txt & -> & Ht & He & ->)].
  - apply find_some in Hfind. destruct Hfind as [Hin Hi].
    apply Nat.eqb_eq in Hi.
    pose proof (proj1 (isEarliest_spec _ _) He) as Hmin.
    pose proof (Hmin _ Hint) as Hd1. pose proof (Hmin _ Hstop) as Hd2.
    cbn [due intervalTimer stopTimer] in Hd1, Hd2.
    destruct (proj1 (Forall_forall _ _) Hall tm Hin) as [->|[->|Hfor]].
    + (* the interval timer *)
      right. left. cbn [timerId intervalTimer] in Hi. subst i.
      split; [reflexivity|].
      cbn [due task period intervalTimer runTask] in *.
      unfold blink, rearm. cbn [period intervalTimer].
      cbn [blinkEnvs setTimers setNow]. rewrite Henv.
      cbv zeta. cbn [blinkTarget isVisible blinkCount].
      destruct (Z.gtb_spec (k + 1) 120) as [Hgt|_]; [lia|].
      split; [|split].
      * unfold loopRunning.
        cbn [now timers nextTimerId blinkEnvs setBlinkEnvs setBorderRight
             updElement setDom setTimers setNow timerId intervalTimer].
        split; [lia|]. split.
        { rewrite (nth_error_replace _ _ _ _ Henv).
          now rewrite Z.add_1_r, Z.even_succ, <- Z.negb_even. }
        split; [exact Hid|].
        assert (Hupd : forall o,
                   In o (timers s) ->
                   (o = intervalTimer env id t0 k
                    /\ (if Nat.eqb (timerId o) id
                        then {| timerId := timerId o; due := due o + 500;
                                period := period o; task := task o |}
                        else o) = intervalTimer env id t0 (k + 1))
                   \/ (o <> intervalTimer env id t0 k
                       /\ (if Nat.eqb (timerId o) id
                           then {| timerId := timerId o; due := due o + 500;
                                   period := period o; task := task o |}
                           else o) = o
                       /\ (o = stopTimer el id t0
                           \/ foreignTimer env id o))).
        { intros o Ho.
          destruct (proj1 (Forall_forall _ _) Hall o Ho) as [->|[->|Hf]].
          - left. split; [reflexivity|]. cbn [timerId intervalTimer].
            rewrite Nat.eqb_refl. unfold intervalTimer.
            cbn [timerId due period task]. f_equal. lia.
          - right. cbn [timerId stopTimer].
            assert (Hne : Nat.eqb (S id) id = false)
              by (apply Nat.eqb_neq; lia).
            rewrite Hne. split; [discriminate|]. split; [reflexivity|].
            now left.
          - right. destruct Hf as (Hf1 & Hf2 & Hf3 & Hf4).
            apply Nat.eqb_neq in Hf1 as Hne. rewrite Hne.
            split; [|split; [reflexivity|right; unfold foreignTimer; tauto]].
            intros ->. now apply Hf1. }
        split.
        { apply Forall_forall. intros o Ho. apply in_map_iff in Ho.
          destruct Ho as (x & <- & Hx).
          destruct (Hupd x Hx) as [(_ & ->)|(_ & -> & Hc)]; tauto. }
        split.
        { apply in_map_iff. exists (intervalTimer env id t0 k).
          split; [|exact Hint].
          destruct (Hupd _ Hint) as [(_ & H)|(H & _)]; [exact H|congruence]. }
        split.
        { apply in_map_iff. exists (stopTimer el id t0).
          split; [|exact Hstop].
          destruct (Hupd _ Hstop) as [(H & _)|(_ & H & _)];
            [discriminate H|exact H]. }
        lia.
      * cbn [now setBlinkEnvs setBorderRight updElement setDom setTimers
             setNow]. lia.
      * cbn [dom setBlinkEnvs setBorderRight updElement setDom setTimers
             setNow]. rewrite Nat.eqb_refl. reflexivity.
    + (* the stop timer *)
      right. right. cbn [timerId stopTimer] in Hi. subst i.
      split; [reflexivity|].
      cbn [due task period stopTimer runTask] in *.
      unfold blinkStop, rearm. cbn [period stopTimer timerId].
      split; [|split].
      * unfold loopStopped.
        cbn [now timers nextTimerId blinkEnvs setBorderRight updElement
             setDom clearTimer setTimers setNow].
        split; [lia|]. split; [exact Henv|]. split; [exact Hid|].
        split; [|lia].
        apply Forall_forall. intros o Ho.
        apply filter_In in Ho. destruct Ho as [Ho Ho1].
        apply filter_In in Ho. destruct Ho as [Ho Ho2].
        apply negb_true_iff, Nat.eqb_neq in Ho1, Ho2.
        destruct (proj1 (Forall_forall _ _) Hall o Ho) as [->|[->|Hf]];
          [now cbn in Ho1|now cbn in Ho2|exact Hf].
      * cbn [now setBorderRight updElement setDom clearTimer setTimers
             setNow]. lia.
      * cbn [dom setBorderRight updElement setDom clearTimer setTimers
             setNow]. rewrite Nat.eqb_refl. reflexivity.
    + (* a timer of another owner *)
      left. pose proof Hfor as (Hf1 & Hf2 & Hf3 & Hf4).
      split; [intros H; injection H as H; congruence|].
      split; [intros H; injection H as H; congruence|].
      apply runTask_foreign_running; [exact Hf3|exact Hf4|].
      destruct (rearm_fields tm (setNow (Z.max (now s) (due tm)) s))
        as (H1 & H2 & H3).
      unfold loopRunning. rewrite H1, H2, H3.
      cbn [now nextTimerId blinkEnvs setNow].
      split; [lia|]. split; [exact Henv|]. split; [exact Hid|].
      split; [now apply rearm_foreign|].
      split; [apply rearm_keeps; [exact Hint|cbn; congruence]|].
      split; [apply rearm_keeps; [exact Hstop|cbn; congruence]|].
      lia.
  - (* a render *)
    left. split; [discriminate|]. split; [discriminate|].
    pose proof (proj1 (isEarliest_spec _ _) He) as Hmin.
    pose proof (Hmin _ Hint) as Hd1. pose proof (Hmin _ Hstop) as Hd2.
    cbn [due intervalTimer stopTimer] in Hd1, Hd2.
    apply (loopRunning_grows el env id t0 k (setNow t s));
      [|apply startTypewriterAnimation_grows].
    unfold loopRunning. cbn [now timers nextTimerId blinkEnvs setNow].
    repeat split; try assumption; lia.
Qed.

(** Once the loop is over it stays so. *)
Lemma loop_over (k : Z) (l : Label) (s s' : State) :
  loopStopped el env id t0 k s ->
  step l s = Some s' ->
  loopStopped el env id t0 k s'.
Proof.
  intros Hst Hstep.
  pose proof Hst as (Hk & Henv & Hid & Hall & Hnow).
  destruct (turn_inv l s s' Hstep)
    as [(i & tm & -> & Hfind & He & ->)
       |(t & e & txt & -> & Ht & He & ->)].
  - apply find_some in Hfind. destruct Hfind as [Hin _].
    pose proof (proj1 (Forall_forall _ _) Hall tm Hin)
      as (_ & _ & Hf3 & _).
    apply runTask_foreign_stopped; [exact Hf3|].
    destruct (rearm_fields tm (setNow (Z.max (now s) (due tm)) s))
      as (H1 & H2 & H3).
    unfold loopStopped. rewrite H1, H2, H3.
    cbn [now nextTimerId blinkEnvs setNow].
    split; [lia|]. split; [exact Henv|]. split; [exact Hid|].
    split; [now apply rearm_all_foreign|lia].
  - apply (loopStopped_grows el env id t0 k (setNow t s));
      [|apply startTypewriterAnimation_grows].
    unfold loopStopped. cbn [now timers nextTimerId blinkEnvs setNow].
    repeat split; try assumption; lia.
Qed.

Lemma loop_run (tr : list Label) :
  forall (k : Z) (s s' : State),
    loopRunning el env id t0 k s \/ loopStopped el env id t0 k s ->
    run tr s = Some s' ->
    exists k',
      loopRunning el env id t0 k' s' \/ loopStopped el env id t0 k' s'.
Proof.
  induction tr as [|l tr IH]; intros k s s' Hphase Hrun; cbn [run] in Hrun.
  - injection Hrun as <-. now exists k.
  - destruct (step l s) as [s1|] eqn:Hstep; [|discriminate].
    destruct Hphase as [Hr|Hs].
    + destruct (loop_turn k l s s1 Hr Hstep)
        as [(_ & _ & H)|[(_ & H & _)|(_ & H & _)]].
      * apply (IH k s1); [now left|exact Hrun].
      * apply (IH (k + 1) s1); [now left|exact Hrun].
      * apply (IH k s1); [now right|exact Hrun].
    + apply (IH k s1); [right; now apply (loop_over k l s)|exact Hrun].
Qed.

End LoopTurns.

Section LoopOrigin.

Import Typewriter.

Local Arguments Float64.round : simpl never.
Local Arguments timerDelay : simpl never.
Local Arguments delayOf : simpl never.
Local Arguments substring : simpl never.
Local Arguments Z.add : simpl never.
Local Arguments Z.mul : simpl never.
Local Arguments Z.max : simpl never.
Local Arguments Nat.eqb : simpl never.

(** A turn that creates a closure environment of [blink] is the tick of a
    session whose index has reached the length of its text, or the render
    of the empty text; the blink loop of that environment runs when the
    turn is over. *)
Lemma loop_origin (l : Label) (s0 s1 : State) :
  wellFormed s0 ->
  step l s0 = Some s1 ->
  (List.length (blinkEnvs s0) < List.length (blinkEnvs s1))%nat ->
  exists el,
    ((exists i tm sid ses,
         l = LFire i /\ In tm (timers s0) /\ timerId tm = i
         /\ task tm = TypeNextChar sid
         /\ nth_error (sessions s0) sid = Some ses
         /\ length (text ses) <= currentIndex ses
         /\ el = target ses)
     \/ (exists t, l = LRender t el []))
    /\ loopRunning el (List.length (blinkEnvs s0)) (nextTimerId s0) (now s1)
         0 s1.
Proof.
  intros Hwf Hstep Hlen.
  assert (Hstart : forall el sm,
             wellFormed sm ->
             List.length (blinkEnvs sm) = List.length (blinkEnvs s0) ->
             nextTimerId sm = nextTimerId s0 ->
             s1 = throwUncaught (startCursorBlink el (setTyping el false sm)) ->
             loopRunning el (List.length (blinkEnvs s0)) (nextTimerId s0)
               (now s1) 0 s1).
  { intros el sm Hwfm Hl Hn ->.
    assert (Hwf' : wellFormed (setTyping el false sm))
      by (revert Hwfm; now apply wellFormed_ext).
    pose proof (loop_starts el (setTyping el false sm) Hwf') as H.
    cbn [blinkEnvs nextTimerId setTyping updElement setDom] in H.
    rewrite Hl, Hn in H. exact H. }
  destruct (turn_inv l s0 s1 Hstep)
    as [(i & tm & -> & Hfind & He & Heq)
       |(t & e & txt & -> & Ht & He & Heq)].
  - apply find_some in Hfind. destruct Hfind as [Hin Hi].
    apply Nat.eqb_eq in Hi.
    set (sb := rearm tm (setNow (Z.max (now s0) (due tm)) s0)) in *.
    destruct (rearm_fields tm (setNow (Z.max (now s0) (due tm)) s0))
      as (H1 & H2 & H3). fold sb in H1, H2, H3.
    cbn [nextTimerId blinkEnvs setNow] in H2, H3.
    assert (Hwfb : wellFormed sb).
    { apply wellFormed_rearm. revert Hwf. now apply wellFormed_ext. }
    destruct (task tm) as [sid|e|e|e j] eqn:Htask; cbn [runTask] in Heq.
    + destruct (typeNextChar_shape sid sb)
        as [Hs|[(_ & Hs & _)|(ses & Hses & Hidx & Hs)]].
      * rewrite Heq, Hs, H3 in Hlen. lia.
      * rewrite Heq, Hs, H3 in Hlen. lia.
      * exists (target ses). split.
        -- left. exists i, tm, sid, ses. repeat split; try assumption.
           unfold sb, rearm in Hses. destruct (period tm); exact Hses.
        -- apply (Hstart (target ses) sb Hwfb); [now rewrite H3|exact H2|].
           now rewrite Heq.
    + rewrite Heq in Hlen. cbn in Hlen. rewrite H3 in Hlen. lia.
    + destruct (blink_fields e sb) as (_ & _ & _ & Hl).
      rewrite Heq, Hl, H3 in Hlen. lia.
    + rewrite Heq in Hlen. cbn in Hlen. rewrite H3 in Hlen. lia.
  - unfold startTypewriterAnimation in Heq. cbv zeta in Heq.
    match type of Heq with
    | _ = typeNextChar ?sid ?s3 =>
        set (n := sid) in *; set (sm := s3) in *
    end.
    assert (Hwfm : wellFormed sm) by (revert Hwf; now apply wellFormed_ext).
    destruct (typeNextChar_shape n sm)
      as [Hs|[(_ & Hs & _)|(ses & Hses & Hidx & Hs)]].
    + rewrite Heq, Hs in Hlen. cbn in Hlen. lia.
    + rewrite Heq, Hs in Hlen. cbn in Hlen. lia.
    + assert (Hnew : ses = {| target := e; text := txt; currentIndex := 0 |}).
      { unfold sm, n in Hses. cbn in Hses.
        rewrite nth_error_app2 in Hses by lia.
        rewrite Nat.sub_diag in Hses. now injection Hses as <-. }
      subst ses. cbn [target text currentIndex] in *.
      assert (Hnil : txt = []).
      { destruct txt; [reflexivity|]. unfold length in Hidx.
        cbn in Hidx. lia. }
      subst txt. exists e. split; [right; now exists t|].
      apply (Hstart e sm Hwfm); [reflexivity|reflexivity|].
      now rewrite Heq.
Qed.

(** C9.  A blink loop among whatever else the page does.  From the
    turn of the event loop that starts the loop, the tick of a session
    whose index has reached the length of its text, and through any turns
    that follow, timers of other sessions and loops and new renders
    included: [blink] runs every 500 ms and toggles the border at each
    run; it runs at most 60 times, so that its own ceiling of 120 is never
    met; the timer set for 30000 ms clears the interval timer and the
    border; once the clock is past 30000 ms from the start the loop is
    over, for good; and while any timer is pending the event loop can take
    a turn, so that the clock is never held back. *)
Theorem blink_loop_stops (rnd : nat -> Q) (tr0 : list Label) (s0 : State)
  (l : Label) (s1 : State) (tr : list Label) (s' : State) :
  run tr0 (initial rnd) = Some s0 ->
  step l s0 = Some s1 ->
  (List.length (blinkEnvs s0) < List.length (blinkEnvs s1))%nat ->
  run tr s1 = Some s' ->
  let env := List.length (blinkEnvs s0) in
  let id := nextTimerId s0 in
  let t0 := now s1 in
  exists el,
    ((exists i tm sid ses,
         l = LFire i /\ In tm (timers s0) /\ timerId tm = i
         /\ task tm = TypeNextChar sid
         /\ nth_error (sessions s0) sid = Some ses
         /\ length (text ses) <= currentIndex ses
         /\ el = target ses)
     \/ (exists t, l = LRender t el []))
    /\ loopRunning el env id t0 0 s1
    /\ (exists k,
           loopRunning el env id t0 k s' \/ loopStopped el env id t0 k s')
    /\ (t0 + 30000 < now s' -> exists k, loopStopped el env id t0 k s')
    /\ (timers s' <> [] -> exists i s'', step (LFire i) s' = Some s'')
    /\ (forall k l' s'',
           loopRunning el env id t0 k s' ->
           step l' s' = Some s'' ->
           (l' <> LFire id /\ l' <> LFire (S id)
            /\ loopRunning el env id t0 k s'')
           \/ (l' = LFire id
               /\ loopRunning el env id t0 (k + 1) s''
               /\ now s'' = t0 + 500 * (k + 1)
               /\ borderRight (dom s'' el)
                  = if Z.even k then BorderAccent else BorderNone)
           \/ (l' = LFire (S id)
               /\ loopStopped el env id t0 k s''
               /\ now s'' = t0 + 30000
               /\ borderRight (dom s'' el) = BorderNone)).
Proof.
  intros Hrun0 Hstep Hlen Hrun env id t0.
  assert (Hwf0 : wellFormed s0)
    by (apply (wellFormed_run tr0 (initial rnd));
        [apply wellFormed_initial|exact Hrun0]).
  assert (Hwf1 : wellFormed s1) by now apply (wellFormed_step l s0).
  assert (Hwf' : wellFormed s') by now apply (wellFormed_run tr s1).
  destruct (loop_origin l s0 s1 Hwf0 Hstep Hlen) as (el & Horigin & Hstart).
  exists el. split; [exact Horigin|]. split; [exact Hstart|].
  destruct (loop_run el env id t0 tr 0 s1 s' (or_introl Hstart) Hrun)
    as (k & Hphase).
  split; [now exists k|]. split.
  { intros Hpast. exists k. destruct Hphase as [Hr|Hs]; [|exact Hs].
    destruct Hr as (_ & _ & _ & _ & _ & _ & _ & Hnow). lia. }
  split; [now apply wellFormed_progress|].
  intros k' l' s''. apply loop_turn.
Qed.

End LoopOrigin.

Section LoopRuns.

Import Typewriter.

(** Two sessions on one element, as the page starts them: ["A"] is
    rendered at time 0 and ["XY"] at time 10.  The last tick of the first
    session, at 85 ms, starts a blink loop while the tick of the second
    session is pending; the second session starts its own loop at 180 ms.
    Both loops run [blink] 60 times and are stopped by their timers, at
    30085 ms and 30180 ms: then no timer is left and the cursor is off. *)
Lemma blink_loop_stops_witness :
  let rnd := fun _ : nat => 1 # 2 in
  let tr0 := [LRender 0 0%nat (str "A"); LRender 10 0%nat (str "XY")] in
  let tr :=
    [LFire 1; LFire 4]
    ++ List.concat (repeat [LFire 2; LFire 5] 59)
    ++ [LFire 2; LFire 3; LFire 5; LFire 6] in
  exists s0 s1 s',
    run tr0 (initial rnd) = Some s0
    /\ step (LFire 0) s0 = Some s1
    /\ (List.length (blinkEnvs s0) < List.length (blinkEnvs s1))%nat
    /\ run tr s1 = Some s'
    /\ timers s0
       = [{| timerId := 0; due := 85; period := None;
             task := TypeNextChar 0 |};
          {| timerId := 1; due := 95; period := None;
             task := TypeNextChar 1 |}]
    /\ now s1 = 85
    /\ (exists el k,
           loopStopped el (List.length (blinkEnvs s0)) (nextTimerId s0)
             (now s1) k s')
    /\ timers s' = []
    /\ borderRight (dom s' 0%nat) = BorderNone
    /\ now s' = 30180.
Proof.
  intros rnd tr0 tr.
  assert (Hfacts :
            match run tr0 (initial rnd) with
            | Some s0 =>
                match step (LFire 0) s0 with
                | Some s1 =>
                    match run tr s1 with
                    | Some s' =>
                        Some (List.length (blinkEnvs s0), timers s0,
                              List.length (blinkEnvs s1), now s1,
                              timers s', borderRight (dom s' 0%nat), now s')
                    | None => None
                    end
                | None => None
                end
            | None => None
            end
            = Some (0%nat,
                    [{| timerId := 0; due := 85; period := None;
                        task := TypeNextChar 0 |};
                     {| timerId := 1; due := 95; period := None;
                        task := TypeNextChar 1 |}],
                    1%nat, 85, [], BorderNone, 30180))
    by (vm_compute; reflexivity).
  destruct (run tr0 (initial rnd)) as [s0|] eqn:Hrun0; [|discriminate Hfacts].
  destruct (step (LFire 0) s0) as [s1|] eqn:Hstep; [|discriminate Hfacts].
  destruct (run tr s1) as [s'|] eqn:Hrun; [|discriminate Hfacts].
  injection Hfacts as Hl0 Htm0 Hl1 Hnow1 Htm' Hborder Hnow'.
  assert (Hlen : (List.length (blinkEnvs s0) < List.length (blinkEnvs s1))%nat)
    by (rewrite Hl0, Hl1; lia).
  exists s0, s1, s'.
  split; [reflexivity|]. split; [exact Hstep|]. split; [exact Hlen|].
  split; [exact Hrun|]. split; [exact Htm0|]. split; [exact Hnow1|].
  split; [|split; [exact Htm'|split; [exact Hborder|exact Hnow']]].
  destruct (blink_loop_stops rnd tr0 s0 (LFire 0) s1 tr s' Hrun0 Hstep Hlen
              Hrun)
    as (el & _ & _ & _ & Hpast & _).
  exists el. apply Hpast. rewrite Hnow1, Hnow'. lia.
Defined.

End LoopRuns.

(** ** Further properties of the quote *)

Section QuoteShape.

(** Behind a run that is being replaced no white space comes out
    first. *)
Lemma replaceRunsFrom_head (s : jsstring) :
  forall h r,
    replaceRunsFrom isWhiteSpace [0x20] true s = h :: r ->
    isWhiteSpace h = false.
Proof.
  induction s as [|c t IH]; intros h r; cbn [replaceRunsFrom];
    [discriminate|].
  destruct (isWhiteSpace c) eqn:Hc; [apply IH|].
  intros H. injection H as <- _. exact Hc.
Qed.

(** No two white-space characters follow each other once the runs are
    collapsed. *)
Lemma replaceRunsFrom_no_pair (s : jsstring) :
  forall b a x y c,
    replaceRunsFrom isWhiteSpace [0x20] b s = a ++ x :: y :: c ->
    isWhiteSpace x = true -> isWhiteSpace y = false.
Proof.
  induction s as [|ch t IH]; intros b a x y c; cbn [replaceRunsFrom].
  - destruct a; discriminate.
  - destruct (isWhiteSpace ch) eqn:Hch.
    + destruct b; [apply IH|]. cbn [app].
      destruct a as [|a0 a]; cbn [app]; intros H Hx.
      * injection H as _ H. now apply (replaceRunsFrom_head t y c).
      * injection H as _ H. now apply (IH true a x y c).
    + destruct a as [|a0 a]; cbn [app]; intros H Hx.
      * injection H as -> _. congruence.
      * injection H as _ H. now apply (IH false a x y c).
Qed.

(** X1.  The cleaned quote has no white space at either end, no white
    space but the plain space, and no two spaces in a row. *)
Theorem sanitize_shape (quote : jsstring) :
  trimStart (sanitize quote) = sanitize quote
  /\ trimEnd (sanitize quote) = sanitize quote
  /\ Forall (fun c => isWhiteSpace c = true -> c = 0x20) (sanitize quote)
  /\ (forall a x y c,
         sanitize quote = a ++ x :: y :: c ->
         isWhiteSpace x = true -> isWhiteSpace y = false).
Proof.
  destruct (trim_ends quote) as [Hhead Hlast].
  destruct (collapse_ends (trim quote) Hhead Hlast) as [Hhead' Hlast'].
  rewrite sanitize_unfold. split; [exact Hhead'|]. split.
  - unfold trimEnd. rewrite Hlast'. apply rev_involutive.
  - split; [apply replaceRunsFrom_spaces|].
    intros a x y c. apply replaceRunsFrom_no_pair.
Qed.

(** A body that is not blank is not cleaned away. *)
Lemma sanitize_nonempty (quote : jsstring) :
  trim quote <> [] -> sanitize quote <> [].
Proof.
  intros Hne. rewrite sanitize_unfold.
  destruct (trim_ends quote) as [Hhead _].
  apply trimStart_fixed_iff in Hhead.
  destruct (trim quote) as [|c t]; [congruence|]. cbn [map].
  destruct (inClass [0xD; 0xA; 0x9] c) eqn:Hcls.
  - apply lineBreak_isWhiteSpace in Hcls. destruct Hcls. congruence.
  - unfold replaceRuns. cbn [replaceRunsFrom]. rewrite Hhead. discriminate.
Qed.

Lemma truncate_nonempty (s : jsstring) : s <> [] -> truncate s <> [].
Proof.
  intros Hne. unfold truncate.
  destruct (Z.gtb_spec (length s) maxLength) as [Hlong|_]; [|exact Hne].
  cbv zeta. unfold maxLength in *.
  destruct (scanCut_range s 10 (60 - 10)) as [Hcut|Hcut]; [lia| |].
  - rewrite Hcut. cbn [Z.gtb Z.compare]. intros H.
    apply app_eq_nil in H. destruct H as [_ H]. discriminate.
  - unfold maxLength in Hcut.
    destruct (Z.gtb_spec (scanCut s (60 - 10) 10) 0) as [_|Hle]; [|lia].
    intros H. apply (f_equal length) in H.
    rewrite length_substring_prefix in H by lia.
    change (length []) with 0 in H. lia.
Qed.

(** X2.  Truncating twice is truncating once: what [truncate] returns is
    short enough to be returned as it is. *)
Theorem truncate_idempotent (s : jsstring) :
  truncate (truncate s) = truncate s.
Proof.
  pose proof (truncate_length_le s) as Hle.
  unfold truncate at 1.
  destruct (Z.gtb_spec (length (truncate s)) maxLength) as [Hgt|_];
    [lia|reflexivity].
Qed.

End QuoteShape.

(** ** Further properties of the fetch *)

Section FetchMore.

Import Fetch.

Variable abortMessage : jsstring.

Local Abbreviation step := (Fetch.step abortMessage).
Local Abbreviation run := (Fetch.run abortMessage).
Local Abbreviation onTimer := (Fetch.onTimer abortMessage).

(** What a fulfilled call returns. *)
Lemma step_fulfilled (l : Label) (s s' : State) :
  (forall q, stage s = Done (Fulfilled q) ->
             exists body, trim body <> [] /\ q = displayQuote body) ->
  step l s = Some s' ->
  forall q, stage s' = Done (Fulfilled q) ->
            exists body, trim body <> [] /\ q = displayQuote body.
Proof.
  intros Hinv Hstep q.
  destruct (step_inv abortMessage l s s' Hstep)
    as [(_ & d & _ & ->)|(t & ev & _ & _ & _ & ->)].
  - unfold Fetch.onTimer. cbn. destruct (stage s) eqn:Hst; cbn;
      rewrite ?Hst; try discriminate. apply Hinv.
  - unfold Fetch.onNet. cbn [stage setNow].
    destruct (stage s) eqn:Hst, ev; cbn [stage setNow catchBlock setStage];
      rewrite ?Hst; try discriminate; try apply Hinv.
    + unfold afterFetch. destruct (negb (ok response)); cbn; discriminate.
    + unfold afterText.
      destruct ((length quote =? 0) || (length (trim quote) =? 0)) eqn:Hb;
        cbn; [discriminate|].
      intros H. injection H as <-. exists quote. split; [|reflexivity].
      intros Hblank. apply blank_body_iff in Hblank. congruence.
Qed.

Lemma run_fulfilled (tr : list Label) :
  forall s s',
    (forall q, stage s = Done (Fulfilled q) ->
               exists body, trim body <> [] /\ q = displayQuote body) ->
    run tr s = Some s' ->
    forall q, stage s' = Done (Fulfilled q) ->
              exists body, trim body <> [] /\ q = displayQuote body.
Proof.
  induction tr as [|l tr IH]; intros s s' Hinv Hrun; cbn [Fetch.run] in Hrun.
  - injection Hrun as <-. exact Hinv.
  - destruct (step l s) as [s1|] eqn:Hstep; [|discriminate].
    apply (IH s1); [|exact Hrun]. now apply (step_fulfilled l s).
Qed.

(** X3.  The value of a fulfilled call is the cleaned and truncated text
    of a body that was not blank; it is not empty and has at most 60 code
    units. *)
Theorem fulfilled_quote (t0 : Z) (tr : list Label) (s : State)
  (q : jsstring) :
  run tr (init t0) = Some s ->
  stage s = Done (Fulfilled q) ->
  q <> [] /\ length q <= 60
  /\ exists body, trim body <> [] /\ q = displayQuote body.
Proof.
  intros Hrun Hq.
  destruct (run_fulfilled tr (init t0) s) with (q := q)
    as (body & Hbody & ->); [discriminate|exact Hrun|exact Hq|].
  split; [|split].
  - unfold displayQuote. now apply truncate_nonempty, sanitize_nonempty.
  - unfold displayQuote. apply truncate_length_le.
  - now exists body.
Qed.

(** A turn keeps the signal and the rejection by the timer in step. *)
Lemma step_abort (l : Label) (s s' : State) :
  (stage s <> AwaitFetch -> timeoutId s = None) ->
  (aborted s = true <-> exists m, stage s = Done (Rejected timeout m)) ->
  (forall m, stage s = Done (Rejected timeout m) -> m = abortMessage) ->
  step l s = Some s' ->
  (aborted s' = true <-> exists m, stage s' = Done (Rejected timeout m))
  /\ (forall m, stage s' = Done (Rejected timeout m) -> m = abortMessage).
Proof.
  intros Htm Hab Hmsg Hstep.
  destruct (step_inv abortMessage l s s' Hstep)
    as [(_ & d & Hd & ->)|(t & ev & _ & _ & _ & ->)].
  - assert (Hst : stage s = AwaitFetch).
    { destruct (stage s) eqn:E; [reflexivity| |];
        (rewrite Htm in Hd; [discriminate|congruence]). }
    unfold Fetch.onTimer. cbn. rewrite Hst. cbn. split.
    + split; [intros _; eexists; reflexivity|reflexivity].
    + intros m H. now injection H as <-.
  - unfold Fetch.onNet. cbn [stage setNow].
    assert (Hcase : (stage (match stage s, ev with
                            | AwaitFetch, FetchFulfils response =>
                                afterFetch response (setNow t s)
                            | AwaitFetch, FetchRejects error =>
                                catchBlock network error (setNow t s)
                            | AwaitText _, TextFulfils quote =>
                                afterText quote (setNow t s)
                            | AwaitText _, TextRejects error =>
                                catchBlock network error (setNow t s)
                            | _, _ => setNow t s
                            end) = stage s
                     \/ (forall m,
                            stage (match stage s, ev with
                                   | AwaitFetch, FetchFulfils response =>
                                       afterFetch response (setNow t s)
                                   | AwaitFetch, FetchRejects error =>
                                       catchBlock network error (setNow t s)
                                   | AwaitText _, TextFulfils quote =>
                                       afterText quote (setNow t s)
                                   | AwaitText _, TextRejects error =>
                                       catchBlock network error (setNow t s)
                                   | _, _ => setNow t s
                                   end) <> Done (Rejected timeout m))
                        /\ forall m, stage s <> Done (Rejected timeout m))
                    /\ aborted (match stage s, ev with
                                | AwaitFetch, FetchFulfils response =>
                                    afterFetch response (setNow t s)
                                | AwaitFetch, FetchRejects error =>
                                    catchBlock network error (setNow t s)
                                | AwaitText _, TextFulfils quote =>
                                    afterText quote (setNow t s)
                                | AwaitText _, TextRejects error =>
                                    catchBlock network error (setNow t s)
                                | _, _ => setNow t s
                                end) = aborted s).
    { destruct (stage s) eqn:Hst, ev; cbn [stage aborted setNow catchBlock
                                              setStage clearTimeout];
        rewrite ?Hst; try (split; [now left|reflexivity]).
      - unfold afterFetch. destruct (negb (ok response)); cbn;
          (split; [right; split; intros m; discriminate|reflexivity]).
      - split; [right; split; intros m; discriminate|reflexivity].
      - unfold afterText.
        destruct ((length quote =? 0) || (length (trim quote) =? 0)); cbn;
          (split; [right; split; intros m; discriminate|reflexivity]).
      - split; [right; split; intros m; discriminate|reflexivity]. }
    destruct Hcase as [[Heq|[Hno Hno']] Hab']; rewrite Hab'.
    + rewrite Heq. now split.
    + split.
      * split.
        -- intros H. apply Hab in H. destruct H as [m H].
           now contradiction (Hno' m).
        -- intros [m H]. now contradiction (Hno m).
      * intros m H. now contradiction (Hno m).
Qed.

Lemma run_abort (tr : list Label) :
  forall s s',
    (stage s <> AwaitFetch -> timeoutId s = None) ->
    (aborted s = true <-> exists m, stage s = Done (Rejected timeout m)) ->
    (forall m, stage s = Done (Rejected timeout m) -> m = abortMessage) ->
    run tr s = Some s' ->
    (aborted s' = true <-> exists m, stage s' = Done (Rejected timeout m))
    /\ (forall m, stage s' = Done (Rejected timeout m) -> m = abortMessage).
Proof.
  induction tr as [|l tr IH]; intros s s' Htm Hab Hmsg Hrun;
    cbn [Fetch.run] in Hrun.
  - injection Hrun as <-. now split.
  - destruct (step l s) as [s1|] eqn:Hstep; [|discriminate].
    destruct (step_abort l s s1 Htm Hab Hmsg Hstep) as [Hab1 Hmsg1].
    apply (IH s1); try assumption.
    now apply (step_timer_cleared abortMessage l s).
Qed.

(** X4.  The controller is aborted by the timer task only: in every
    state a call reaches, the signal is aborted exactly when the call is
    rejected through the timer, with the message of the [AbortError]. *)
Theorem aborted_only_by_timeout (t0 : Z) (tr : list Label) (s : State) :
  run tr (init t0) = Some s ->
  (aborted s = true <-> stage s = Done (Rejected timeout abortMessage)).
Proof.
  intros Hrun.
  destruct (run_abort tr (init t0) s) as [Hab Hmsg]; try exact Hrun.
  - intros H. now contradiction H.
  - cbn. split; [discriminate|]. intros [m H]. discriminate.
  - intros m H. discriminate.
  - rewrite Hab. split.
    + intros [m H]. now rewrite (Hmsg m H) in H.
    + intros H. now exists abortMessage.
Qed.

(** X5.  The result of a settled call is final: whatever arrives later
    changes neither the result nor the signal, and sets no timer. *)
Theorem settlement_final (t0 : Z) (tr tr' : list Label) (s s' : State)
  (r : Settlement) :
  run tr (init t0) = Some s ->
  stage s = Done r ->
  run tr' s = Some s' ->
  stage s' = Done r /\ aborted s' = aborted s /\ timeoutId s' = None.
Proof.
  intros Hrun Hst Hrun'.
  assert (Htm : timeoutId s = None).
  { apply (run_timer_cleared abortMessage tr (init t0) s);
      [intros H; now contradiction H|exact Hrun|congruence]. }
  destruct (run_settled abortMessage tr' s s' r Hst Htm Hrun')
    as (H1 & H2 & H3).
  now repeat split.
Qed.

(** X6.  No timeout bounds the reading of the body: once the headers have
    arrived the timer is cleared and cannot run, and a body that arrives at
    any later time settles the call. *)
Theorem body_read_has_no_timeout (t0 : Z) (tr : list Label) (s : State)
  (r : Response) :
  run tr (init t0) = Some s ->
  stage s = AwaitText r ->
  timeoutId s = None
  /\ step LTimer s = None
  /\ forall t body,
       now s <= t ->
       exists s',
         step (LNet t (TextFulfils body)) s = Some s'
         /\ (trim body <> [] ->
             stage s' = Done (Fulfilled (displayQuote body)))
         /\ (trim body = [] ->
             stage s' = Done (Rejected empty_body emptyMessage)).
Proof.
  intros Hrun Hst.
  assert (Htm : timeoutId s = None).
  { apply (run_timer_cleared abortMessage tr (init t0) s);
      [intros H; now contradiction H|exact Hrun|congruence]. }
  split; [exact Htm|]. split; [cbn; now rewrite Htm|].
  intros t body Ht. eexists. split.
  - cbn [Fetch.step]. rewrite Htm.
    destruct (Z.leb_spec (now s) t) as [_|]; [|lia]. reflexivity.
  - unfold Fetch.onNet. cbn [stage setNow]. rewrite Hst. unfold afterText.
    destruct ((length body =? 0) || (length (trim body) =? 0)) eqn:Hb.
    + apply blank_body_iff in Hb. split; [congruence|reflexivity].
    + split; [reflexivity|]. intros Hblank.
      apply blank_body_iff in Hblank. congruence.
Qed.

End FetchMore.

(** ** The reveal *)

Section Reveal.

Import Typewriter.

Local Arguments Float64.round : simpl never.
Local Arguments timerDelay : simpl never.
Local Arguments delayOf : simpl never.
Local Arguments substring : simpl never.
Local Arguments charAt : simpl never.
Local Arguments Z.add : simpl never.
Local Arguments Z.mul : simpl never.
Local Arguments Z.max : simpl never.
Local Arguments Nat.eqb : simpl never.

(** *** What one run of [typeNextChar] does *)

(** A tick of a session that has a character left. *)
Lemma typeNextChar_tick (sid : nat) (s : State) (ses : Session) :
  nth_error (sessions s) sid = Some ses ->
  currentIndex ses < length (text ses) ->
  let char := charAt (text ses) (currentIndex ses) in
  let r := if isSpace char || isPunctuation char then 0%Q
           else randoms s (randomsUsed s) in
  let s' := typeNextChar sid s in
  sessions s'
  = firstn sid (sessions s)
    ++ {| target := target ses; text := text ses;
          currentIndex := currentIndex ses + 1 |}
       :: skipn (S sid) (sessions s)
  /\ (forall e,
         textContent (dom s' e)
         = if Nat.eqb e (target ses)
           then substring (text ses) 0 (currentIndex ses + 1)
           else textContent (dom s e))
  /\ uncaught s' = uncaught s
  /\ blinkEnvs s' = blinkEnvs s
  /\ exists rest,
       timers s'
       = timers s
         ++ {| timerId := nextTimerId s;
               due := now s + timerDelay (delayOf char r);
               period := None; task := TypeNextChar sid |} :: rest
       /\ Forall (fun tm => (exists e, task tm = FlashOff e)
                            /\ timerId tm = S (nextTimerId s)) rest.
Proof.
  intros Hses Hidx. cbv zeta. unfold typeNextChar. rewrite Hses.
  destruct (Z.ltb_spec (currentIndex ses) (length (text ses))) as [_|Hge];
    [|lia].
  unfold typingDelay. cbv beta iota zeta delta [random].
  destruct (isSpace (charAt (text ses) (currentIndex ses))
            || isPunctuation (charAt (text ses) (currentIndex ses)));
    match goal with
    | |- context [if ?c then _ else _] => destruct c
    end;
    (split; [reflexivity|]);
    (split; [intros e; cbn; now destruct (Nat.eqb e (target ses))|]);
    (split; [reflexivity|]); (split; [reflexivity|]);
    eexists; (split; [cbn; rewrite <- ?app_assoc; reflexivity|]);
    repeat (apply Forall_cons || apply Forall_nil);
    (split; [eexists; reflexivity|reflexivity]).
Qed.

(** Such a tick leaves the class [typing] of every element as it is. *)
Lemma typeNextChar_tick_class (sid : nat) (s : State) (ses : Session) :
  nth_error (sessions s) sid = Some ses ->
  currentIndex ses < length (text ses) ->
  forall e, typing (dom (typeNextChar sid s) e) = typing (dom s e).
Proof.
  intros Hses Hidx e. unfold typeNextChar. rewrite Hses.
  destruct (Z.ltb_spec (currentIndex ses) (length (text ses))) as [_|Hge];
    [|lia].
  unfold typingDelay. cbv beta iota zeta delta [random].
  destruct (isSpace (charAt (text ses) (currentIndex ses))
            || isPunctuation (charAt (text ses) (currentIndex ses)));
    match goal with
    | |- context [if ?c then _ else _] => destruct c
    end;
    cbn; now destruct (Nat.eqb e (target ses)).
Qed.

(** The tick of a session that has revealed its whole text. *)
Lemma typeNextChar_last (sid : nat) (s : State) (ses : Session) :
  nth_error (sessions s) sid = Some ses ->
  length (text ses) <= currentIndex ses ->
  let s' := typeNextChar sid s in
  sessions s' = sessions s
  /\ (forall e, textContent (dom s' e) = textContent (dom s e))
  /\ uncaught s' = S (uncaught s)
  /\ blinkEnvs s'
     = blinkEnvs s
       ++ [{| blinkTarget := target ses; isVisible := true;
              blinkCount := 0 |}]
  /\ timers s'
     = timers s
       ++ [intervalTimer (List.length (blinkEnvs s)) (nextTimerId s)
             (now s) 0;
           stopTimer (target ses) (nextTimerId s) (now s)].
Proof.
  intros Hses Hidx. cbv zeta. unfold typeNextChar. rewrite Hses.
  destruct (Z.ltb_spec (currentIndex ses) (length (text ses))) as [Hlt|_];
    [lia|].
  split; [reflexivity|].
  split; [intros e; cbn; now destruct (Nat.eqb e (target ses))|].
  split; [reflexivity|]. split; [reflexivity|].
  destruct (startCursorBlink_fields (target ses)
              (setTyping (target ses) false s)) as (_ & _ & Htm & _).
  exact Htm.
Qed.

Lemma typeNextChar_none (sid : nat) (s : State) :
  nth_error (sessions s) sid = None -> typeNextChar sid s = s.
Proof. intros H. unfold typeNextChar. now rewrite H. Qed.

(** The closure [blink] touches neither the text of an element nor the
    sessions. *)
Lemma blink_keeps (env : nat) (s : State) :
  sessions (blink env s) = sessions s
  /\ uncaught (blink env s) = uncaught s
  /\ forall e, textContent (dom (blink env s) e) = textContent (dom s e).
Proof.
  unfold blink. destruct (nth_error (blinkEnvs s) env) as [b|];
    [|now repeat split].
  cbv zeta. cbn [blinkCount].
  destruct (blinkCount b + 1 >? 120);
    (split; [reflexivity|]; split; [reflexivity|]); intros e; cbn;
    now destruct (Nat.eqb e (blinkTarget b)).
Qed.

Lemma rearm_keeps_page (tm : Timer) (s : State) :
  sessions (rearm tm s) = sessions s
  /\ dom (rearm tm s) = dom s
  /\ uncaught (rearm tm s) = uncaught s
  /\ blinkEnvs (rearm tm s) = blinkEnvs s.
Proof. unfold rearm. now destruct (period tm). Qed.

(** *** The delay of the next tick *)



End Reveal.

(** ** What an element shows *)

Section Shown.

Import Typewriter.

Local Arguments Float64.round : simpl never.
Local Arguments timerDelay : simpl never.
Local Arguments delayOf : simpl never.
Local Arguments substring : simpl never.
Local Arguments charAt : simpl never.
Local Arguments Z.add : simpl never.
Local Arguments Z.mul : simpl never.
Local Arguments Z.max : simpl never.
Local Arguments Nat.eqb : simpl never.





Lemma substring_0_0 (s : jsstring) : substring s 0 0 = [].
Proof. unfold substring, clamp. now destruct s. Qed.




(** ** The exception at the end of a reveal *)




End Shown.

(** ** The ticks of the sessions *)

Section Ticks.

Import Typewriter.

Local Arguments Float64.round : simpl never.
Local Arguments timerDelay : simpl never.
Local Arguments delayOf : simpl never.
Local Arguments substring : simpl never.
Local Arguments charAt : simpl never.
Local Arguments Z.add : simpl never.
Local Arguments Z.mul : simpl never.
Local Arguments Z.max : simpl never.
Local Arguments Nat.eqb : simpl never.

(** Pending timers are told apart by their identifiers. *)
Lemma same_id_same_timer (l : list Timer) (a b : Timer) :
  NoDup (map timerId l) -> In a l -> In b l -> timerId a = timerId b ->
  a = b.
Proof.
  intros Hnd Ha Hb Heq.
  pose proof (find_by_id l a Hnd Ha) as Hfa.
  pose proof (find_by_id l b Hnd Hb) as Hfb.
  rewrite Heq in Hfa. congruence.
Qed.

(** The invariant survives when the timers are armed again. *)
Lemma ticksOk_map (f : Timer -> Timer) (skip : option nat) (s s' : State) :
  (forall tm, timerId (f tm) = timerId tm /\ task (f tm) = task tm
              /\ period (f tm) = period tm) ->
  timers s' = map f (timers s) ->
  sessions s' = sessions s ->
  ticksOk skip s -> ticksOk skip s'.
Proof.
  intros Hf Htm Hs (K2 & K3 & Kb & K4 & K5 & K6). unfold ticksOk.
  rewrite Htm, Hs.
  assert (Hpre : forall tm, In tm (map f (timers s)) ->
                            exists x, In x (timers s) /\ tm = f x
                                      /\ timerId tm = timerId x
                                      /\ task tm = task x
                                      /\ period tm = period x).
  { intros tm Hin. apply in_map_iff in Hin. destruct Hin as (x & <- & Hx).
    exists x. destruct (Hf x) as (H1 & H2 & H3). now repeat split. }
  split; [|split; [|split; [exact Kb|split; [|split]]]].
  - intros tm sid Hin Htask.
    destruct (Hpre tm Hin) as (x & Hx & _ & _ & Ht & Hp).
    rewrite Hp. apply (K2 x sid Hx). congruence.
  - intros tm tm' sid Hin Hin' Htask Htask'.
    destruct (Hpre tm Hin) as (x & Hx & -> & _ & Ht & _).
    destruct (Hpre tm' Hin') as (x' & Hx' & -> & _ & Ht' & _).
    f_equal. apply (K3 x x' sid); congruence.
  - intros sid ses Hses Hskip.
    destruct (K4 sid ses Hses Hskip) as [(tm & Hin & Htask)|Hdone];
      [left|now right].
    exists (f tm). split; [now apply in_map|].
    destruct (Hf tm) as (_ & -> & _). exact Htask.
  - intros tm el i tm' Hin Htask Hin' Hid.
    destruct (Hpre tm Hin) as (x & Hx & _ & _ & Ht & _).
    destruct (Hpre tm' Hin') as (x' & Hx' & _ & Hi' & Ht' & _).
    rewrite Ht'. apply (K5 x el i x'); congruence.
  - intros sid tm Hskip Hin.
    destruct (Hpre tm Hin) as (x & Hx & _ & _ & -> & _).
    now apply K6.
Qed.

Lemma ticksOk_ext (skip : option nat) (s s' : State) :
  timers s' = timers s ->
  sessions s' = sessions s ->
  ticksOk skip s -> ticksOk skip s'.
Proof.
  intros Htm Hs. apply (ticksOk_map (fun tm => tm)); [now repeat split| |exact Hs].
  now rewrite map_id.
Qed.

(** The invariant survives when timers that are no ticks are cleared. *)
Lemma ticksOk_filter (p : Timer -> bool) (skip : option nat) (s s' : State) :
  (forall tm sid, In tm (timers s) -> p tm = false ->
                  task tm <> TypeNextChar sid) ->
  timers s' = filter p (timers s) ->
  sessions s' = sessions s ->
  ticksOk skip s -> ticksOk skip s'.
Proof.
  intros Hp Htm Hs (K2 & K3 & Kb & K4 & K5 & K6). unfold ticksOk.
  rewrite Htm, Hs.
  split; [|split; [|split; [exact Kb|split; [|split]]]].
  - intros tm sid Hin. apply filter_In in Hin. now apply K2.
  - intros tm tm' sid Hin Hin'. apply filter_In in Hin, Hin'.
    now apply K3.
  - intros sid ses Hses Hskip.
    destruct (K4 sid ses Hses Hskip) as [(tm & Hin & Htask)|Hdone];
      [left|now right].
    exists tm. split; [|exact Htask]. apply filter_In. split; [exact Hin|].
    destruct (p tm) eqn:Hptm; [reflexivity|].
    now contradiction (Hp tm sid Hin Hptm).
  - intros tm el i tm' Hin Htask Hin'. apply filter_In in Hin, Hin'.
    now apply (K5 tm el i tm').
  - intros sid tm Hskip Hin. apply filter_In in Hin. now apply K6.
Qed.

(** The tick that runs is cleared: its session has no tick pending until
    [typeNextChar] sets the next one. *)
Lemma ticksOk_clear_tick (tm : Timer) (sid : nat) (s s' : State) :
  NoDup (map timerId (timers s)) ->
  In tm (timers s) -> task tm = TypeNextChar sid ->
  timers s' = filter (fun o => negb (Nat.eqb (timerId o) (timerId tm)))
                (timers s) ->
  sessions s' = sessions s ->
  ticksOk None s -> ticksOk (Some sid) s'.
Proof.
  intros Hnd Hin Htask Htm Hs (K2 & K3 & Kb & K4 & K5 & _). unfold ticksOk.
  rewrite Htm, Hs.
  assert (Hkept : forall o, In o (timers s) -> o <> tm ->
                  In o (filter (fun o => negb (Nat.eqb (timerId o)
                                                 (timerId tm))) (timers s))).
  { intros o Ho Hne. apply filter_In. split; [exact Ho|].
    destruct (Nat.eqb_spec (timerId o) (timerId tm)) as [Heq|_];
      [|reflexivity].
    now contradiction Hne; apply (same_id_same_timer (timers s)). }
  split; [|split; [|split; [exact Kb|split; [|split]]]].
  - intros o sid' Ho. apply filter_In in Ho. now apply K2.
  - intros o o' sid' Ho Ho'. apply filter_In in Ho, Ho'. now apply K3.
  - intros sid' ses Hses Hskip.
    destruct (K4 sid' ses Hses) as [(o & Ho & Hotask)|Hdone];
      [discriminate| |now right].
    left. exists o. split; [|exact Hotask]. apply Hkept; [exact Ho|].
    intros ->. congruence.
  - intros o el i o' Ho Hotask Ho'. apply filter_In in Ho, Ho'.
    now apply (K5 o el i o').
  - intros sid' o Hskip Ho Hotask. injection Hskip as <-.
    apply filter_In in Ho. destruct Ho as [Ho Hid].
    assert (o = tm) by now apply (K3 o tm sid).
    subst o. now rewrite Nat.eqb_refl in Hid.
Qed.

(** A session that is started has no tick yet. *)
Lemma ticksOk_new_session (new : Session) (s s' : State) :
  timers s' = timers s ->
  sessions s' = sessions s ++ [new] ->
  currentIndex new = 0 ->
  ticksOk None s -> ticksOk (Some (List.length (sessions s))) s'.
Proof.
  intros Htm Hs Hzero (K2 & K3 & Kb & K4 & K5 & _). unfold ticksOk.
  rewrite Htm, Hs.
  assert (Hold : forall sid ses,
             nth_error (sessions s ++ [new]) sid = Some ses ->
             nth_error (sessions s) sid = Some ses
             \/ (sid = List.length (sessions s) /\ ses = new)).
  { intros sid ses H.
    destruct (Nat.lt_ge_cases sid (List.length (sessions s))) as [Hlt|Hge].
    - left. now rewrite nth_error_app1 in H.
    - right. rewrite nth_error_app2 in H by exact Hge.
      destruct (sid - List.length (sessions s))%nat as [|k] eqn:Hk;
        [|destruct k; discriminate].
      injection H as <-. split; [lia|reflexivity]. }
  split; [|split; [exact K3|split; [|split; [|split; [exact K5|]]]]].
  - intros tm sid Hin Htask. destruct (K2 tm sid Hin Htask) as [Hp Hlt].
    split; [exact Hp|]. rewrite List.length_app. cbn [List.length]. lia.
  - intros sid ses H. destruct (Hold sid ses H) as [Hses|[_ ->]].
    + now apply (Kb sid).
    + rewrite Hzero. pose proof (length_nonneg (text new)). lia.
  - intros sid ses H Hskip. destruct (Hold sid ses H) as [Hses|[-> _]].
    + apply (K4 sid ses Hses). discriminate.
    + now contradiction Hskip.
  - intros sid tm Hskip Hin Htask. injection Hskip as <-.
    destruct (K2 tm _ Hin Htask) as [_ Hlt]. lia.
Qed.

(** [typeNextChar] sets the tick its session is lacking, unless the
    session has revealed its whole text. *)
Lemma ticksOk_typeNextChar (sid : nat) (s : State) :
  wellFormed s -> ticksOk (Some sid) s -> ticksOk None (typeNextChar sid s).
Proof.
  intros [_ Hok] (K2 & K3 & Kb & K4 & K5 & K6).
  assert (Hids : forall o, In o (timers s) ->
                           (timerId o < nextTimerId s)%nat
                           /\ forall el i, task o = BlinkStop el i ->
                                           (i < nextTimerId s)%nat).
  { intros o Ho. destruct (proj1 (Forall_forall _ _) Hok o Ho) as (H1 & _ & H3).
    now split. }
  destruct (nth_error (sessions s) sid) as [ses|] eqn:Hsid.
  2:{ rewrite typeNextChar_none by exact Hsid.
      split; [exact K2|]. split; [exact K3|]. split; [exact Kb|].
      split; [|split; [exact K5|discriminate]].
      intros sid' ses' Hses' _. apply (K4 sid' ses' Hses'). congruence. }
  assert (Hlen : (sid < List.length (sessions s))%nat)
    by (apply nth_error_Some; congruence).
  destruct (Z.lt_ge_cases (currentIndex ses) (length (text ses)))
    as [Hlt|Hge].
  - destruct (typeNextChar_tick sid s ses Hsid Hlt)
      as (Hs & _ & _ & _ & rest & Htm & Hrest).
    remember (typeNextChar sid s) as s' eqn:Es'. clear Es'.
    match type of Htm with
    | _ = _ ++ ?t :: _ => set (tick := t) in *
    end.
    assert (Hin' : forall o, In o (timers s') ->
                   In o (timers s)
                   \/ (o = tick /\ ~ In o (timers s))
                   \/ (timerId o = S (nextTimerId s)
                       /\ exists e, task o = FlashOff e)).
    { intros o Ho. rewrite Htm in Ho. apply in_app_or in Ho.
      destruct Ho as [Ho|[<-|Ho]]; [now left| |].
      - right. left. split; [reflexivity|]. intros Hold.
        destruct (Hids tick Hold) as [Hid _]. cbn in Hid. lia.
      - right. right.
        destruct (proj1 (Forall_forall _ _) Hrest o Ho) as [He Hid].
        now split. }
    assert (Hold : forall o, In o (timers s) -> In o (timers s')).
    { intros o Ho. rewrite Htm. apply in_or_app. now left. }
    assert (Htick : In tick (timers s')).
    { rewrite Htm. apply in_or_app. right. now left. }
    unfold ticksOk.
    split; [|split; [|split; [|split; [|split; [|discriminate]]]]].
    + intros o sid' Ho Htask. rewrite Hs, length_replace by exact Hlen.
      destruct (Hin' o Ho) as [Hin|[[-> _]|[_ [e He]]]].
      * now apply K2.
      * cbn in Htask. injection Htask as <-. now split.
      * congruence.
    + intros o o' sid' Ho Ho' Htask Htask'.
      destruct (Hin' o Ho) as [Hin|[[-> _]|[_ [e He]]]];
        destruct (Hin' o' Ho') as [Hin2|[[-> _]|[_ [e' He']]]];
        try congruence.
      * now apply (K3 o o' sid').
      * cbn in Htask'. injection Htask' as <-.
        now contradiction (K6 sid o eq_refl Hin).
      * cbn in Htask. injection Htask as <-.
        now contradiction (K6 sid o' eq_refl Hin2).
    + intros m sm Hm. rewrite Hs in Hm.
      destruct (Nat.eq_dec m sid) as [->|Hne].
      * rewrite (nth_error_replace _ _ _ _ Hsid) in Hm.
        injection Hm as <-. cbn [currentIndex text].
        specialize (Kb sid ses Hsid). lia.
      * rewrite nth_error_replace_other in Hm by assumption.
        now apply (Kb m).
    + intros m sm Hm _. rewrite Hs in Hm.
      destruct (Nat.eq_dec m sid) as [->|Hne].
      * left. exists tick. now split.
      * rewrite nth_error_replace_other in Hm by assumption.
        destruct (K4 m sm Hm) as [(o & Ho & Htask)|Hdone];
          [congruence| |now right].
        left. exists o. split; [now apply Hold|exact Htask].
    + intros o el i o' Ho Htask Ho' Hid.
      destruct (Hin' o Ho) as [Hin|[[-> _]|[_ [e He]]]];
        [|discriminate Htask|congruence].
      destruct (Hids o Hin) as [_ Hstop]. specialize (Hstop el i Htask).
      destruct (Hin' o' Ho') as [Hin2|[[-> _]|[Hid' _]]].
      * now apply (K5 o el i o').
      * cbn in Hid. lia.
      * lia.
  - destruct (typeNextChar_last sid s ses Hsid Hge)
      as (Hs & _ & _ & _ & Htm).
    remember (typeNextChar sid s) as s' eqn:Es'. clear Es'.
    assert (Hin' : forall o, In o (timers s') ->
                   In o (timers s)
                   \/ o = intervalTimer (List.length (blinkEnvs s))
                            (nextTimerId s) (now s) 0
                   \/ o = stopTimer (target ses) (nextTimerId s) (now s)).
    { intros o Ho. rewrite Htm in Ho. apply in_app_or in Ho.
      destruct Ho as [Ho|[<-|[<-|[]]]]; auto. }
    assert (Hold : forall o, In o (timers s) -> In o (timers s')).
    { intros o Ho. rewrite Htm. apply in_or_app. now left. }
    unfold ticksOk. rewrite Hs.
    split; [|split; [|split; [exact Kb|split; [|split; [|discriminate]]]]].
    + intros o sid' Ho Htask.
      destruct (Hin' o Ho) as [Hin|[-> | ->]];
        [now apply K2|discriminate Htask|discriminate Htask].
    + intros o o' sid' Ho Ho' Htask Htask'.
      destruct (Hin' o Ho) as [Hin|[-> | ->]];
        [|discriminate Htask|discriminate Htask].
      destruct (Hin' o' Ho') as [Hin2|[-> | ->]];
        [|discriminate Htask'|discriminate Htask'].
      now apply (K3 o o' sid').
    + intros m sm Hm _.
      destruct (Nat.eq_dec m sid) as [->|Hne].
      * right. specialize (Kb sid ses Hsid).
        assert (sm = ses) by congruence. subst sm. lia.
      * destruct (K4 m sm Hm) as [(o & Ho & Htask)|Hdone];
          [congruence| |now right].
        left. exists o. split; [now apply Hold|exact Htask].
    + intros o el i o' Ho Htask Ho' Hid.
      destruct (Hin' o Ho) as [Hin|[-> | ->]]; [|discriminate Htask|].
      * destruct (Hids o Hin) as [_ Hstop]. specialize (Hstop el i Htask).
        destruct (Hin' o' Ho') as [Hin2|[-> | ->]].
        -- now apply (K5 o el i o').
        -- cbn in Hid. lia.
        -- cbn in Hid. lia.
      * cbn in Htask. injection Htask as _ <-.
        destruct (Hin' o' Ho') as [Hin2|[-> | ->]].
        -- destruct (Hids o' Hin2) as [Hlt _]. lia.
        -- now eexists.
        -- cbn in Hid. lia.
Qed.

(** A turn of the event loop keeps the invariant. *)
Lemma ticksOk_step (l : Label) (s s' : State) :
  wellFormed s -> ticksOk None s -> step l s = Some s' -> ticksOk None s'.
Proof.
  intros Hwf Hok Hstep.
  destruct (turn_inv l s s' Hstep)
    as [(i & tm & _ & Hfind & _ & ->)|(t & el & txt & _ & _ & _ & ->)].
  - apply find_some in Hfind. destruct Hfind as [Hin _].
    set (s0 := setNow (Z.max (now s) (due tm)) s).
    assert (Hwf0 : wellFormed s0) by (revert Hwf; now apply wellFormed_ext).
    assert (Hok0 : ticksOk None s0) by (revert Hok; now apply ticksOk_ext).
    assert (Hin0 : In tm (timers s0)) by exact Hin.
    pose proof (wellFormed_rearm tm s0 Hwf0) as Hwf1.
    destruct (rearm_keeps_page tm s0) as (Hs1 & _).
    assert (Hone : forall o, In o (timers s0) ->
                     negb (Nat.eqb (timerId o) (timerId tm)) = false ->
                     o = tm).
    { intros o Ho Hid. apply negb_false_iff, Nat.eqb_eq in Hid.
      destruct Hwf0 as [Hnd _].
      now apply (same_id_same_timer (timers s0)). }
    assert (Hother : (forall sid, task tm <> TypeNextChar sid) ->
                     ticksOk None (rearm tm s0)).
    { intros Hno. unfold rearm. destruct (period tm) as [p|].
      - revert Hok0.
        apply (ticksOk_map
                 (fun o => if Nat.eqb (timerId o) (timerId tm)
                           then {| timerId := timerId o; due := due o + p;
                                   period := period o; task := task o |}
                           else o)); [|reflexivity|reflexivity].
        intros o. now destruct (Nat.eqb (timerId o) (timerId tm)).
      - revert Hok0.
        apply (ticksOk_filter
                 (fun o => negb (Nat.eqb (timerId o) (timerId tm))));
          [|reflexivity|reflexivity].
        intros o sid Ho Hid. rewrite (Hone o Ho Hid). apply Hno. }
    destruct (task tm) as [sid|e|env|e j] eqn:Htask; cbn [runTask].
    + apply ticksOk_typeNextChar; [exact Hwf1|].
      destruct Hok0 as (K2 & Hrest).
      destruct (K2 tm sid Hin0 Htask) as [Hp _].
      apply (ticksOk_clear_tick tm sid s0);
        [now destruct Hwf0|exact Hin0|exact Htask| |exact Hs1|
         exact (conj K2 Hrest)].
      unfold rearm. now rewrite Hp.
    + apply (ticksOk_ext None (rearm tm s0)); [reflexivity|reflexivity|].
      apply Hother. discriminate.
    + destruct (blink_fields env (rearm tm s0)) as (Htm & _).
      destruct (blink_keeps env (rearm tm s0)) as (Hs & _).
      apply (ticksOk_ext None (rearm tm s0)); [exact Htm|exact Hs|].
      apply Hother. discriminate.
    + assert (Hok1 : ticksOk None (rearm tm s0))
        by (apply Hother; discriminate).
      revert Hok1.
      apply (ticksOk_filter (fun o => negb (Nat.eqb (timerId o) j)));
        [|reflexivity|reflexivity].
      intros o sid Ho Hid Hotask.
      apply negb_false_iff, Nat.eqb_eq in Hid.
      assert (Ho0 : In o (timers s0)).
      { revert Ho. unfold rearm. destruct (period tm) as [p|].
        - destruct Hok0 as (_ & _ & _ & _ & K5 & _).
          cbn [timers setTimers]. intros Ho. apply in_map_iff in Ho.
          destruct Ho as (x & Hx & Hxin).
          destruct (Nat.eqb_spec (timerId x) (timerId tm)) as [Heq|_];
            [|now subst].
          assert (x = tm).
          { destruct Hwf0 as [Hnd _].
            now apply (same_id_same_timer (timers s0)). }
          subst x o. cbn in Hotask. congruence.
        - cbn [timers setTimers clearTimer]. intros Ho.
          now apply filter_In in Ho. }
      destruct Hok0 as (_ & _ & _ & _ & K5 & _).
      destruct (K5 tm e j o Hin0 Htask Ho0 Hid) as [b Hb]. congruence.
  - set (s0 := setNow t s).
    assert (Hwf0 : wellFormed s0) by (revert Hwf; now apply wellFormed_ext).
    assert (Hok0 : ticksOk None s0) by (revert Hok; now apply ticksOk_ext).
    unfold startTypewriterAnimation. cbv zeta.
    apply ticksOk_typeNextChar.
    + revert Hwf0. now apply wellFormed_ext.
    + apply (ticksOk_new_session
               {| target := el; text := txt; currentIndex := 0 |} s0);
        [reflexivity|reflexivity|reflexivity|exact Hok0].
Qed.

Lemma ticksOk_run (tr : list Label) :
  forall s s',
    wellFormed s -> ticksOk None s -> run tr s = Some s' ->
    wellFormed s' /\ ticksOk None s'.
Proof.
  induction tr as [|l tr IH]; intros s s' Hwf Hok Hrun; cbn [run] in Hrun.
  - injection Hrun as <-. now split.
  - destruct (step l s) as [s1|] eqn:Hstep; [|discriminate].
    apply (IH s1); [| |exact Hrun].
    + now apply (wellFormed_step l s).
    + now apply (ticksOk_step l s).
Qed.

(** X9.  A reveal neither stalls nor doubles its pace.  Whatever sessions
    overlap, a session stays inside its text; while it has a character
    left exactly one tick of it is pending, a one-shot timer, and the
    event loop can take a turn; a session with no tick pending has
    revealed its whole text. *)
Theorem reveal_keeps_one_tick (rnd : nat -> Q) (tr : list Label)
  (s : State) (sid : nat) (ses : Session) :
  run tr (initial rnd) = Some s ->
  nth_error (sessions s) sid = Some ses ->
  0 <= currentIndex ses <= length (text ses)
  /\ (forall tm tm',
         In tm (timers s) -> In tm' (timers s) ->
         task tm = TypeNextChar sid -> task tm' = TypeNextChar sid ->
         tm = tm')
  /\ (forall tm,
         In tm (timers s) -> task tm = TypeNextChar sid -> period tm = None)
  /\ (currentIndex ses < length (text ses) ->
      (exists tm, In tm (timers s) /\ task tm = TypeNextChar sid)
      /\ exists i s', step (LFire i) s = Some s').
Proof.
  intros Hrun Hses.
  assert (Hinit : ticksOk None (initial rnd)).
  { unfold ticksOk. cbn [timers sessions initial].
    split; [intros tm m []|]. split; [intros tm tm' m []|].
    split; [intros m sm H; now destruct m|].
    split; [intros m sm H; now destruct m|].
    split; [intros tm el i tm' []|discriminate]. }
  destruct (ticksOk_run tr _ _ (wellFormed_initial rnd) Hinit Hrun)
    as [Hwf (K2 & K3 & Kb & K4 & _)].
  split; [now apply (Kb sid)|].
  split; [intros tm tm'; apply (K3 tm tm' sid)|].
  split; [intros tm Hin Htask; now apply (K2 tm sid)|].
  intros Hlt.
  destruct (K4 sid ses Hses) as [(tm & Hin & Htask)|Hdone];
    [discriminate| |lia].
  split; [now exists tm|].
  apply wellFormed_progress; [exact Hwf|]. intros Hnil.
  rewrite Hnil in Hin. contradiction.
Qed.

End Ticks.

(** ** From the fetch to the reveal *)

Section FetchedQuote.

Import Typewriter.

Local Arguments Float64.round : simpl never.
Local Arguments timerDelay : simpl never.
Local Arguments delayOf : simpl never.
Local Arguments substring : simpl never.
Local Arguments charAt : simpl never.
Local Arguments Z.add : simpl never.
Local Arguments Z.mul : simpl never.
Local Arguments Z.max : simpl never.
Local Arguments Nat.eqb : simpl never.

(** X11.  The quote of a fulfilled call starts a reveal that does not end
    at once: [startTypewriterAnimation] returns without an exception and
    without a blink loop, the target has the class [typing] and shows the
    first code unit of the quote, and the tick of the new session is
    pending. *)
Theorem fulfilled_quote_starts_reveal (abortMessage : jsstring) (t0 : Z)
  (tr : list Fetch.Label) (fs : Fetch.State) (q : jsstring)
  (el : ElementId) (s : State) :
  Fetch.run abortMessage tr (Fetch.init t0) = Some fs ->
  Fetch.stage fs = Fetch.Done (Fetch.Fulfilled q) ->
  let s' := startTypewriterAnimation el q s in
  uncaught s' = uncaught s
  /\ blinkEnvs s' = blinkEnvs s
  /\ typing (dom s' el) = true
  /\ (exists c, charAt q 0 = Some c /\ textContent (dom s' el) = [c])
  /\ exists tm,
       In tm (timers s')
       /\ task tm = TypeNextChar (List.length (sessions s)).
Proof.
  intros Hrun Hq.
  assert (Hne : q <> []).
  { destruct (run_fulfilled abortMessage tr (Fetch.init t0) fs)
      with (q := q) as (body & Hbody & ->);
      [discriminate|exact Hrun|exact Hq|].
    unfold displayQuote. now apply truncate_nonempty, sanitize_nonempty. }
  destruct q as [|c t]; [congruence|]. clear Hne.
  cbv zeta. unfold startTypewriterAnimation. cbv zeta.
  set (s2 := updElement el _ (killTweensOf el s)).
  set (new := {| target := el; text := c :: t; currentIndex := 0 |}).
  set (s3 := setSessions (sessions s2 ++ [new]) s2).
  change (List.length (sessions s2)) with (List.length (sessions s)).
  assert (Hnew : nth_error (sessions s3) (List.length (sessions s))
                 = Some new).
  { cbn [s3 sessions setSessions].
    change (sessions s2) with (sessions s).
    rewrite nth_error_app2 by lia. now rewrite Nat.sub_diag. }
  assert (Hlt : currentIndex new < length (text new)).
  { cbn [new currentIndex text]. unfold length. cbn [List.length]. lia. }
  destruct (typeNextChar_tick _ s3 new Hnew Hlt)
    as (_ & Hd & Hu & He & rest & Htm & _).
  split; [exact Hu|]. split; [exact He|]. split.
  - rewrite (typeNextChar_tick_class _ s3 new Hnew Hlt). cbn.
    now rewrite Nat.eqb_refl.
  - split.
    + exists c. split; [reflexivity|]. rewrite Hd.
      cbn [target new text currentIndex]. rewrite Nat.eqb_refl.
      rewrite substring_prefix; [reflexivity|].
      unfold length. cbn [List.length]. lia.
    + eexists. split; [rewrite Htm; apply in_or_app; right; now left|].
      reflexivity.
Qed.

End FetchedQuote.

(** ** The further properties, run *)

Section MoreRuns.

Import Typewriter Scenario.

(** The path of a successful call. *)
Lemma fulfilled_quote_witness :
  let s := {| Fetch.now := 130;
              Fetch.stage := Fetch.Done (Fetch.Fulfilled (str "Hi"));
              Fetch.timeoutId := None; Fetch.aborted := false |} in
  Fetch.run abortMessage
    [Fetch.LNet 120 (Fetch.FetchFulfils response200);
     Fetch.LNet 130 (Fetch.TextFulfils (str " Hi "))]
    (Fetch.init 0) = Some s
  /\ str "Hi" <> []
  /\ length (str "Hi") <= 60
  /\ exists body, trim body <> [] /\ str "Hi" = displayQuote body.
Proof.
  intros s. split; [reflexivity|].
  apply (fulfilled_quote abortMessage 0
           [Fetch.LNet 120 (Fetch.FetchFulfils response200);
            Fetch.LNet 130 (Fetch.TextFulfils (str " Hi "))] s);
    reflexivity.
Defined.

(** The timer runs before anything arrives. *)
Lemma aborted_only_by_timeout_witness :
  let s := {| Fetch.now := 5000;
              Fetch.stage :=
                Fetch.Done (Fetch.Rejected Fetch.timeout abortMessage);
              Fetch.timeoutId := None; Fetch.aborted := true |} in
  Fetch.run abortMessage [Fetch.LTimer] (Fetch.init 0) = Some s
  /\ (Fetch.aborted s = true
      <-> Fetch.stage s
          = Fetch.Done (Fetch.Rejected Fetch.timeout abortMessage)).
Proof.
  intros s. split; [reflexivity|].
  apply (aborted_only_by_timeout abortMessage 0 [Fetch.LTimer] s).
  reflexivity.
Defined.

(** A response with status 503, and a body that arrives behind it. *)
Lemma settlement_final_witness :
  let r := Fetch.Rejected (Fetch.http_status 503)
             (str "HTTP 503: Service Unavailable") in
  let s := {| Fetch.now := 120; Fetch.stage := Fetch.Done r;
              Fetch.timeoutId := None; Fetch.aborted := false |} in
  let s' := {| Fetch.now := 130; Fetch.stage := Fetch.Done r;
               Fetch.timeoutId := None; Fetch.aborted := false |} in
  Fetch.run abortMessage [Fetch.LNet 120 (Fetch.FetchFulfils response503)]
    (Fetch.init 0) = Some s
  /\ Fetch.run abortMessage [Fetch.LNet 130 (Fetch.TextFulfils (str "Hi"))] s
     = Some s'
  /\ Fetch.stage s' = Fetch.Done r
  /\ Fetch.aborted s' = Fetch.aborted s
  /\ Fetch.timeoutId s' = None.
Proof.
  intros r s s'. split; [reflexivity|]. split; [reflexivity|].
  apply (settlement_final abortMessage 0
           [Fetch.LNet 120 (Fetch.FetchFulfils response503)]
           [Fetch.LNet 130 (Fetch.TextFulfils (str "Hi"))] s s' r);
    reflexivity.
Defined.

(** The headers arrive 120 ms after the call; the body may take any
    time. *)
Lemma body_read_has_no_timeout_witness :
  let s := {| Fetch.now := 120; Fetch.stage := Fetch.AwaitText response200;
              Fetch.timeoutId := None; Fetch.aborted := false |} in
  Fetch.run abortMessage [Fetch.LNet 120 (Fetch.FetchFulfils response200)]
    (Fetch.init 0) = Some s
  /\ Fetch.step abortMessage Fetch.LTimer s = None
  /\ exists s',
       Fetch.step abortMessage
         (Fetch.LNet 3600000 (Fetch.TextFulfils (str "Hi"))) s = Some s'
       /\ Fetch.stage s' = Fetch.Done (Fetch.Fulfilled (str "Hi")).
Proof.
  intros s.
  assert (Hrun : Fetch.run abortMessage
                   [Fetch.LNet 120 (Fetch.FetchFulfils response200)]
                   (Fetch.init 0) = Some s) by reflexivity.
  destruct (body_read_has_no_timeout abortMessage 0
              [Fetch.LNet 120 (Fetch.FetchFulfils response200)] s
              response200 Hrun eq_refl) as (_ & Htimer & Hbody).
  split; [exact Hrun|]. split; [exact Htimer|].
  destruct (Hbody 3600000 (str "Hi")) as (s' & Hstep & Hfull & _);
    [vm_compute; discriminate|].
  exists s'. split; [exact Hstep|]. apply Hfull. vm_compute. discriminate.
Defined.

(** The quote ["Hi"] of the successful call is rendered on a blank
    page. *)
Lemma fulfilled_quote_starts_reveal_witness :
  let fs := {| Fetch.now := 130;
               Fetch.stage := Fetch.Done (Fetch.Fulfilled (str "Hi"));
               Fetch.timeoutId := None; Fetch.aborted := false |} in
  let s := initial (fun _ => 1 # 2) in
  let s' := startTypewriterAnimation 0%nat (str "Hi") s in
  Fetch.run abortMessage
    [Fetch.LNet 120 (Fetch.FetchFulfils response200);
     Fetch.LNet 130 (Fetch.TextFulfils (str " Hi "))]
    (Fetch.init 0) = Some fs
  /\ uncaught s' = uncaught s
  /\ blinkEnvs s' = blinkEnvs s
  /\ typing (dom s' 0%nat) = true
  /\ (exists c, charAt (str "Hi") 0 = Some c
                /\ textContent (dom s' 0%nat) = [c])
  /\ exists tm,
       In tm (timers s')
       /\ task tm = TypeNextChar (List.length (sessions s)).
Proof.
  intros fs s s'. split; [reflexivity|].
  apply (fulfilled_quote_starts_reveal abortMessage 0
           [Fetch.LNet 120 (Fetch.FetchFulfils response200);
            Fetch.LNet 130 (Fetch.TextFulfils (str " Hi "))] fs (str "Hi")
           0%nat s); reflexivity.
Defined.



(** The reveal of ["Hi!"] after its first tick. *)
Lemma reveal_keeps_one_tick_witness :
  let rnd := fun _ : nat => 1 # 2 in
  let tr := [LRender 0 0%nat (str "Hi!")] in
  let ses := {| target := 0%nat; text := str "Hi!"; currentIndex := 1 |} in
  exists s,
    run tr (initial rnd) = Some s
    /\ nth_error (sessions s) 0 = Some ses
    /\ currentIndex ses < length (text ses)
    /\ (exists tm, In tm (timers s) /\ task tm = TypeNextChar 0)
    /\ exists i s', step (LFire i) s = Some s'.
Proof.
  intros rnd tr ses.
  assert (Hses : option_map (fun s => nth_error (sessions s) 0)
                   (run tr (initial rnd)) = Some (Some ses))
    by (vm_compute; reflexivity).
  destruct (run tr (initial rnd)) as [s|] eqn:Hrun; [|discriminate Hses].
  injection Hses as Hses.
  assert (Hidx : currentIndex ses < length (text ses)) by reflexivity.
  exists s. split; [reflexivity|]. split; [exact Hses|].
  split; [exact Hidx|].
  exact (proj2 (proj2 (proj2 (reveal_keeps_one_tick rnd tr s 0 ses Hrun
                                Hses))) Hidx).
Defined.


End MoreRuns.

(** ** The ceiling of [blink] *)

Section BlinkCeiling.

Import Typewriter.

Local Arguments Float64.round : simpl never.
Local Arguments timerDelay : simpl never.
Local Arguments delayOf : simpl never.
Local Arguments substring : simpl never.
Local Arguments Z.add : simpl never.
Local Arguments Z.mul : simpl never.
Local Arguments Z.max : simpl never.
Local Arguments Nat.eqb : simpl never.

(** A turn of the event loop creates one closure environment of [blink]
    at most. *)
Lemma blinkEnvs_step (l : Label) (s s' : State) :
  step l s = Some s' ->
  (List.length (blinkEnvs s') <= S (List.length (blinkEnvs s)))%nat.
Proof.
  intros Hstep.
  assert (Htick : forall sid sm,
             (List.length (blinkEnvs (typeNextChar sid sm))
              <= S (List.length (blinkEnvs sm)))%nat).
  { intros sid sm.
    destruct (typeNextChar_shape sid sm)
      as [->|[(_ & -> & _)|(ses & _ & _ & ->)]]; [lia|lia|].
    destruct (startCursorBlink_fields (target ses)
                (setTyping (target ses) false sm)) as (_ & _ & _ & Henv).
    change (blinkEnvs (throwUncaught ?x)) with (blinkEnvs x).
    rewrite Henv, List.length_app. cbn. lia. }
  destruct (turn_inv l s s' Hstep)
    as [(i & tm & _ & _ & _ & ->)|(t & e & txt & _ & _ & _ & ->)].
  - destruct (rearm_fields tm (setNow (Z.max (now s) (due tm)) s))
      as (_ & _ & H3).
    cbn [blinkEnvs setNow] in H3.
    destruct (task tm) as [sid|e|e|e j]; cbn [runTask].
    + rewrite <- H3. apply Htick.
    + cbn. rewrite H3. lia.
    + destruct (blink_fields e (rearm tm (setNow (Z.max (now s) (due tm)) s)))
        as (_ & _ & _ & Hl).
      rewrite Hl, H3. lia.
    + cbn. rewrite H3. lia.
  - unfold startTypewriterAnimation. cbv zeta.
    match goal with
    | |- (List.length (blinkEnvs (typeNextChar ?sid ?sm)) <= _)%nat =>
        pose proof (Htick sid sm) as H
    end.
    exact H.
Qed.

(** Every closure environment of [blink] belongs to a loop that runs or
    is over. *)
Lemma loops_run (tr : list Label) :
  forall s s',
    wellFormed s ->
    (forall env, (env < List.length (blinkEnvs s))%nat ->
                 exists el id t0 k,
                   loopRunning el env id t0 k s
                   \/ loopStopped el env id t0 k s) ->
    run tr s = Some s' ->
    forall env, (env < List.length (blinkEnvs s'))%nat ->
                exists el id t0 k,
                  loopRunning el env id t0 k s'
                  \/ loopStopped el env id t0 k s'.
Proof.
  induction tr as [|l tr IH]; intros s s' Hwf Hinv Hrun; cbn [run] in Hrun.
  - now injection Hrun as <-.
  - destruct (step l s) as [s1|] eqn:Hstep; [|discriminate].
    apply (IH s1); [now apply (wellFormed_step l s)| |exact Hrun].
    intros env Henv.
    destruct (Nat.lt_ge_cases env (List.length (blinkEnvs s))) as [Hold|Hnew].
    + destruct (Hinv env Hold) as (el & id & t0 & k & Hphase).
      exists el, id, t0.
      apply (loop_run el env id t0 [l] k s s1 Hphase).
      cbn [run]. now rewrite Hstep.
    + pose proof (blinkEnvs_step l s s1 Hstep) as Hone.
      assert (Heq : env = List.length (blinkEnvs s)) by lia.
      subst env.
      destruct (loop_origin l s s1 Hwf Hstep Henv) as (el & _ & Hstart).
      exists el, (nextTimerId s), (now s1), 0. now left.
Qed.

(** X13.  The ceiling of [blink] is never met.  Whatever the page has
    done, [blink] has run at most 60 times in each of its closure
    environments, so that the test [blinkCount > 120] on line 1291 fails at
    every run; and [isVisible] tells whether the count is even. *)
Theorem blink_ceiling_never_met (rnd : nat -> Q) (tr : list Label)
  (s : State) (env : nat) (b : BlinkEnv) :
  run tr (initial rnd) = Some s ->
  nth_error (blinkEnvs s) env = Some b ->
  0 <= blinkCount b <= 60
  /\ isVisible b = Z.even (blinkCount b)
  /\ (blinkCount b + 1 >? 120) = false.
Proof.
  intros Hrun Hb.
  assert (Henv : (env < List.length (blinkEnvs s))%nat)
    by (apply nth_error_Some; congruence).
  assert (Hinit : forall e, (e < List.length (blinkEnvs (initial rnd)))%nat ->
                            exists el id t0 k,
                              loopRunning el e id t0 k (initial rnd)
                              \/ loopStopped el e id t0 k (initial rnd)).
  { intros e He. cbn in He. lia. }
  destruct (loops_run tr _ _ (wellFormed_initial rnd) Hinit Hrun env Henv)
    as (el & id & t0 & k & [Hr|Hs]).
  - destruct Hr as (Hk & Hnth & _). rewrite Hnth in Hb.
    injection Hb as <-. cbn [blinkCount isVisible].
    split; [lia|]. split; [reflexivity|].
    rewrite Z.gtb_ltb. apply Z.ltb_ge. lia.
  - destruct Hs as (Hk & Hnth & _). rewrite Hnth in Hb.
    injection Hb as <-. cbn [blinkCount isVisible].
    split; [lia|]. split; [reflexivity|].
    rewrite Z.gtb_ltb. apply Z.ltb_ge. lia.
Qed.

End BlinkCeiling.

Section CeilingRuns.

Import Typewriter.

(** The loop of the session ["A"] when its stop timer has run. *)
Lemma blink_ceiling_never_met_witness :
  let rnd := fun _ : nat => 1 # 2 in
  let tr := [LRender 0 0%nat (str "A"); LFire 0]
            ++ repeat (LFire 1) 60 ++ [LFire 2] in
  let b := {| blinkTarget := 0%nat; isVisible := true; blinkCount := 60 |} in
  exists s,
    run tr (initial rnd) = Some s
    /\ nth_error (blinkEnvs s) 0 = Some b
    /\ timers s = []
    /\ 0 <= blinkCount b <= 60
    /\ isVisible b = Z.even (blinkCount b)
    /\ (blinkCount b + 1 >? 120) = false.
Proof.
  intros rnd tr b.
  assert (Hfacts : option_map
                     (fun s => (nth_error (blinkEnvs s) 0, timers s))
                     (run tr (initial rnd)) = Some (Some b, []))
    by (vm_compute; reflexivity).
  destruct (run tr (initial rnd)) as [s|] eqn:Hrun; [|discriminate Hfacts].
  injection Hfacts as Hb Htm.
  exists s. split; [reflexivity|]. split; [exact Hb|]. split; [exact Htm|].
  exact (blink_ceiling_never_met rnd tr s 0 b Hrun Hb).
Defined.

End CeilingRuns.
